(** * Placement-group reservation and actor-option resolution (core/base.py)

    A shallow embedding of [core/base.py]: the placement-group helpers
    ([PlacementGroupSpec], [create_placement_group],
    [remove_placement_group_safe]) and the actor utilities ([ActorOptions],
    [BaseActor.options], [BaseActor.as_remote]).

    Python objects that the module mutates or copies live in an explicit
    store; calls into Ray and into the logger are recorded, in order, in a
    trace, and what Ray answers is a parameter of every function. *)

From Stdlib Require Import PrimFloat.
From stdpp Require Import base strings gmap list.

Local Open Scope string_scope.
Local Open Scope nat_scope.
Local Open Scope list_scope.

(** ** Type aliases *)

Abbreviation PlacementStrategy := string.
Abbreviation ResourceBundle := (gmap string float).

(** A placement group is an opaque handle issued by Ray. *)
Abbreviation PlacementGroup := nat.

(** The class returned by [ray.remote(...)(cls)], equally opaque. *)
Abbreviation RemoteClass := nat.

(** References to objects in the store. *)
Abbreviation ref := nat.

(** ** Exception hierarchy

    The five classes the module declares, the two built-in errors its
    own code can provoke ([TypeError] from a dataclass constructor given
    an unexpected keyword, [TypeError]/[ValueError] from [dict(x)] on
    something that is no mapping), and what may surface during a call into
    Ray: [RayError] for an exception whose class derives from [Exception],
    [BaseExceptionOnly] for one whose class derives from [BaseException]
    alone ([KeyboardInterrupt], [SystemExit]). *)
Inductive exn :=
| CoreError
| RayDependencyError
| PlacementFailure (timeout_s : float)
| ActorInitializationError
| ModelNotLoaded
| TypeError
| ValueError
| RayError (cls : string)
| BaseExceptionOnly (cls : string).

Definition class_name (e : exn) : string :=
  match e with
  | CoreError => "CoreError"
  | RayDependencyError => "RayDependencyError"
  | PlacementFailure _ => "PlacementFailure"
  | ActorInitializationError => "ActorInitializationError"
  | ModelNotLoaded => "ModelNotLoaded"
  | TypeError => "TypeError"
  | ValueError => "ValueError"
  | RayError cls => cls
  | BaseExceptionOnly cls => cls
  end.

(** [isinstance(e, CoreError)] for the exceptions this module raises
    itself. *)
Definition is_CoreError (e : exn) : bool :=
  match e with
  | CoreError | RayDependencyError | PlacementFailure _
  | ActorInitializationError | ModelNotLoaded => true
  | TypeError | ValueError | RayError _ | BaseExceptionOnly _ => false
  end.

(** [isinstance(e, Exception)]: what an [except Exception] clause
    catches. *)
Definition is_Exception (e : exn) : bool :=
  match e with
  | BaseExceptionOnly _ => false
  | _ => true
  end.

Inductive result (A : Type) :=
| Ok (a : A)
| Raise (e : exn).
Arguments Ok {A} a.
Arguments Raise {A} e.

(** ** Placement group helpers: the data *)

Module PlacementGroupSpec.

(** [@dataclass(frozen=True) class PlacementGroupSpec]. *)
Record t := mk {
  bundles : list ResourceBundle;
  strategy : PlacementStrategy;
  timeout_s : float
}.

(** The generated constructor: [strategy] and [timeout_s] are optional
    keyword arguments with defaults ["PACK"] and [30.0]; the class has
    no [__post_init__]. *)
Definition new (bundles : list ResourceBundle)
    (strategy : option PlacementStrategy) (timeout_s : option float)
  : result t :=
  Ok {| bundles := bundles;
        strategy := default "PACK" strategy;
        timeout_s := default 30.0%float timeout_s |}.

(** The keyword arguments handed to Ray's [placement_group]. *)
Record kwargs := {
  kw_bundles : list ResourceBundle;
  kw_strategy : PlacementStrategy
}.

Definition to_kwargs (self : t) : kwargs :=
  {| kw_bundles := bundles self; kw_strategy := strategy self |}.

End PlacementGroupSpec.

(** ** Python values

    The values an option field or an override can hold: the types the
    annotations of [ActorOptions] mention.  A dict is a mutable object,
    so a value refers to it by reference. *)
Inductive pyval :=
| VNone
| VFloat (x : float)
| VInt (n : Z)
| VStr (s : string)
| VDict (r : ref)
| VHandle (pg : PlacementGroup).

Definition is_None (v : pyval) : bool :=
  match v with VNone => true | _ => false end.

Module ActorOptions.

(** [@dataclass class ActorOptions]: a mutable object; nothing checks
    the annotated types at run time, so every field holds a [pyval]. *)
Record t := mk {
  num_cpus : pyval;
  num_gpus : pyval;
  resources : pyval;
  max_concurrency : pyval;
  name : pyval;
  namespace : pyval;
  lifetime : pyval;
  placement_group : pyval
}.

(** [dataclasses.fields], in declaration order, with the values of an
    instance. *)
Definition items (self : t) : list (string * pyval) :=
  [ ("num_cpus", num_cpus self);
    ("num_gpus", num_gpus self);
    ("resources", resources self);
    ("max_concurrency", max_concurrency self);
    ("name", name self);
    ("namespace", namespace self);
    ("lifetime", lifetime self);
    ("placement_group", placement_group self) ].

Definition field_names : list string :=
  [ "num_cpus"; "num_gpus"; "resources"; "max_concurrency";
    "name"; "namespace"; "lifetime"; "placement_group" ].

(** [getattr(self, k)] for a field name [k]. *)
Fixpoint assoc (k : string) (kvs : list (string * pyval)) : option pyval :=
  match kvs with
  | [] => None
  | (k', v) :: kvs => if String.eqb k' k then Some v else assoc k kvs
  end.

Definition getattr (self : t) (k : string) : option pyval :=
  assoc k (items self).

(** The generated constructor, called with keyword arguments only:
    every field has a default ([0.0] for the two quantities, [None]
    for the rest). *)
Definition of_kwargs (kw : gmap string pyval) : t :=
  {| num_cpus := default (VFloat 0.0%float) (kw !! "num_cpus");
     num_gpus := default (VFloat 0.0%float) (kw !! "num_gpus");
     resources := default VNone (kw !! "resources");
     max_concurrency := default VNone (kw !! "max_concurrency");
     name := default VNone (kw !! "name");
     namespace := default VNone (kw !! "namespace");
     lifetime := default VNone (kw !! "lifetime");
     placement_group := default VNone (kw !! "placement_group") |}.

Definition set_placement_group (v : pyval) (self : t) : t :=
  {| num_cpus := num_cpus self;
     num_gpus := num_gpus self;
     resources := resources self;
     max_concurrency := max_concurrency self;
     name := name self;
     namespace := namespace self;
     lifetime := lifetime self;
     placement_group := v |}.

#[global] Instance inhabited : Inhabited t := populate (of_kwargs ∅).

End ActorOptions.

(** ** The world: store and trace *)

(** What the logger is asked to record. *)
Inductive log_record :=
| Created_placement_group (pg : PlacementGroup) (spec : PlacementGroupSpec.t)
| Removed_placement_group (pg : PlacementGroup)
| Failed_to_remove_placement_group (pg : PlacementGroup) (exc_info : exn).

(** The calls that leave the module, plus the entry into
    [create_placement_group] itself, in the order they happen. *)
Inductive event :=
| Call_create_placement_group (spec : PlacementGroupSpec.t)
| Call_placement_group (kw : PlacementGroupSpec.kwargs)
| Call_wait (pg : PlacementGroup) (timeout : float)
| Call_remove_placement_group (pg : PlacementGroup)
| Call_remote (kw : gmap string pyval)
| Log_debug (r : log_record)
| Log_warning (r : log_record).

(** The store holds the [ActorOptions] instances and the dict objects, each
    addressed by its index; allocation appends.  A Python reference never
    dangles; reading one that does yields the inhabitant of the type. *)
Record World := mkWorld {
  instances : list ActorOptions.t;
  dicts : list (gmap string float);
  trace : list event
}.

(** The Ray side.  [ray] says whether the module global [ray] is not
    [None]; the other fields give the outcome of each call into Ray as a
    function of the calls made so far and of the arguments.  [wait] answers
    whether the list of ready references returned by
    [ray.wait([pg.ready()], timeout=...)] is non-empty. *)
Record Backend := mkBackend {
  ray : bool;
  placement_group : list event → PlacementGroupSpec.kwargs → result PlacementGroup;
  wait : list event → PlacementGroup → float → result bool;
  remove_placement_group : list event → PlacementGroup → result ();
  remote : list event → gmap string pyval → result RemoteClass
}.

(** ** Computations: state that survives a raised exception *)

Definition M (A : Type) : Type := World → result A * World.

#[export] Instance M_ret : MRet M := λ A a w, (Ok a, w).

#[export] Instance M_bind : MBind M := λ A B f m w,
  match m w with
  | (Ok a, w') => f a w'
  | (Raise e, w') => (Raise e, w')
  end.

Definition raise {A} (e : exn) : M A := λ w, (Raise e, w).

(** [try: m  except Exception: h]: an exception that is no instance of
    [Exception] passes through the clause. *)
Definition try_except {A} (m : M A) (h : exn → M A) : M A := λ w,
  match m w with
  | (Ok a, w') => (Ok a, w')
  | (Raise e, w') => if is_Exception e then h e w' else (Raise e, w')
  end.

Definition emit (e : event) : M () := λ w,
  (Ok (), mkWorld (instances w) (dicts w) (trace w ++ [e])).

(** A call into Ray: recorded, then answered from the calls so far. *)
Definition call {A} (e : event) (answer : list event → result A) : M A := λ w,
  (answer (trace w), mkWorld (instances w) (dicts w) (trace w ++ [e])).

Definition new_dict (d : gmap string float) : M ref := λ w,
  (Ok (length (dicts w)), mkWorld (instances w) (dicts w ++ [d]) (trace w)).

Definition new_instance (o : ActorOptions.t) : M ref := λ w,
  (Ok (length (instances w)), mkWorld (instances w ++ [o]) (dicts w) (trace w)).

Definition read_dict (r : ref) : M (gmap string float) := λ w,
  (Ok (dicts w !!! r), w).

Definition read_instance (l : ref) : M ActorOptions.t := λ w,
  (Ok (instances w !!! l), w).

Definition update_instance (l : ref) (f : ActorOptions.t → ActorOptions.t) : M () := λ w,
  (Ok (), mkWorld (alter f l (instances w)) (dicts w) (trace w)).

(** ** Placement group helpers *)

Section WithBackend.

Variable B : Backend.

Definition _require_ray : M () :=
  if ray B then mret () else raise RayDependencyError.

Definition create_placement_group (spec : PlacementGroupSpec.t) : M PlacementGroup :=
  emit (Call_create_placement_group spec);;
  _require_ray;;
  let kw := PlacementGroupSpec.to_kwargs spec in
  pg ← call (Call_placement_group kw) (λ h, placement_group B h kw);
  ready ← call (Call_wait pg (PlacementGroupSpec.timeout_s spec))
               (λ h, wait B h pg (PlacementGroupSpec.timeout_s spec));
  if negb ready then
    call (Call_remove_placement_group pg) (λ h, remove_placement_group B h pg);;
    raise (PlacementFailure (PlacementGroupSpec.timeout_s spec))
  else
    emit (Log_debug (Created_placement_group pg spec));;
    mret pg.

Definition remove_placement_group_safe (pg : option PlacementGroup) : M () :=
  match pg with
  | None => mret ()
  | Some pg =>
      try_except
        (call (Call_remove_placement_group pg) (λ h, remove_placement_group B h pg);;
         emit (Log_debug (Removed_placement_group pg)))
        (λ e, emit (Log_warning (Failed_to_remove_placement_group pg e)))
  end.

End WithBackend.

(** ** Actor utilities *)

(** [copy.deepcopy] as [dataclasses.asdict] applies it to a field value: a
    dict is rebuilt as a new object with the same entries, every other
    value of [pyval] is returned as it is. *)
Definition deepcopy (v : pyval) : M pyval :=
  match v with
  | VDict r => d ← read_dict r; r' ← new_dict d; mret (VDict r')
  | _ => mret v
  end.

Fixpoint asdict_items (kvs : list (string * pyval)) : M (gmap string pyval) :=
  match kvs with
  | [] => mret ∅
  | (k, v) :: kvs =>
      v' ← deepcopy v;
      d ← asdict_items kvs;
      mret (<[k := v']> d)
  end.

(** [dataclasses.asdict(obj)] for an [ActorOptions] instance. *)
Definition asdict (obj : ref) : M (gmap string pyval) :=
  o ← read_instance obj;
  asdict_items (ActorOptions.items o).

(** The constructor call of [BaseActor.options], [ActorOptions] applied to
    the unpacked dict [kw]: an unexpected keyword is a [TypeError];
    otherwise a new instance is allocated. *)
Definition known_keys (kw : gmap string pyval) : bool :=
  bool_decide (map_Forall (λ k _, k ∈ ActorOptions.field_names) kw).

Definition ActorOptions_init (kw : gmap string pyval) : M ref :=
  if known_keys kw
  then new_instance (ActorOptions.of_kwargs kw)
  else raise TypeError.

(** [bool(v)]. *)
Definition truthy (v : pyval) : M bool :=
  match v with
  | VNone => mret false
  | VFloat x => mret (negb (PrimFloat.eqb x 0%float))
  | VInt n => mret (negb (n =? 0)%Z)
  | VStr s => mret (negb (String.eqb s ""))
  | VDict r => d ← read_dict r; mret (negb (Nat.eqb (size d) 0))
  | VHandle _ => mret true
  end.

(** [dict(v)]: a copy of a mapping; a non-empty string yields elements of
    length one ([ValueError]); the other values are not iterable
    ([TypeError]). *)
Definition dict_copy (v : pyval) : M pyval :=
  match v with
  | VDict r => d ← read_dict r; r' ← new_dict d; mret (VDict r')
  | VStr s => if String.eqb s "" then r' ← new_dict ∅; mret (VDict r')
              else raise ValueError
  | _ => raise TypeError
  end.

(** [ActorOptions.to_kwargs]. *)
Definition ActorOptions_to_kwargs (self : ref) : M (gmap string pyval) :=
  o ← read_instance self;
  let kwargs : gmap string pyval :=
    <["num_gpus" := ActorOptions.num_gpus o]>
      {["num_cpus" := ActorOptions.num_cpus o]} in
  t ← truthy (ActorOptions.resources o);
  kwargs ← (if t : bool
            then d ← dict_copy (ActorOptions.resources o);
                 mret (<["resources" := d]> kwargs)
            else mret kwargs);
  let kwargs :=
    if is_None (ActorOptions.max_concurrency o) then kwargs
    else <["max_concurrency" := ActorOptions.max_concurrency o]> kwargs in
  let kwargs :=
    if is_None (ActorOptions.name o) then kwargs
    else <["name" := ActorOptions.name o]> kwargs in
  let kwargs :=
    if is_None (ActorOptions.namespace o) then kwargs
    else <["namespace" := ActorOptions.namespace o]> kwargs in
  let kwargs :=
    if is_None (ActorOptions.lifetime o) then kwargs
    else <["lifetime" := ActorOptions.lifetime o]> kwargs in
  let kwargs :=
    if is_None (ActorOptions.placement_group o) then kwargs
    else <["placement_group" := ActorOptions.placement_group o]> kwargs in
  mret kwargs.

(** An actor class: the two class attributes of [BaseActor] that a
    subclass may redefine.  [default_options] refers to the instance
    shared by every call on the class. *)
Record ActorClass := mkClass {
  default_options : ref;
  placement_group_spec : option PlacementGroupSpec.t
}.

Module BaseActor.
Section WithBackend.

Variable B : Backend.

(** [BaseActor.options], a class method taking keyword overrides. *)
Definition options (cls : ActorClass) (overrides : gmap string pyval) : M ref :=
  options_dict ← asdict (default_options cls);
  let options_dict := overrides ∪ options_dict in
  options ← ActorOptions_init options_dict;
  o ← read_instance options;
  match placement_group_spec cls with
  | Some spec =>
      if is_None (ActorOptions.placement_group o) then
        pg ← create_placement_group B spec;
        update_instance options (ActorOptions.set_placement_group (VHandle pg))
      else mret ()
  | None => mret ()
  end;;
  mret options.

(** [BaseActor.as_remote], a class method taking keyword overrides. *)
Definition as_remote (cls : ActorClass) (overrides : gmap string pyval) : M RemoteClass :=
  _require_ray B;;
  options ← options cls overrides;
  kw ← ActorOptions_to_kwargs options;
  remote_cls ← call (Call_remote kw) (λ h, remote B h kw);
  mret remote_cls.

End WithBackend.
End BaseActor.

(** ** The classes of the test suite and some Ray behaviours *)

Definition options_of (num_cpus num_gpus : pyval) : ActorOptions.t :=
  ActorOptions.of_kwargs (<["num_gpus" := num_gpus]> {["num_cpus" := num_cpus]}).

(** The store once the modules are loaded: the default option sets of
    [BaseActor], [ExampleActor] and [ExampleActorWithPlacement]. *)
Definition loaded : World :=
  {| instances := [ ActorOptions.of_kwargs {["num_cpus" := VFloat 0.5%float]};
                    options_of (VInt 1) (VFloat 0.25%float);
                    options_of (VInt 1) (VInt 1) ];
     dicts := [];
     trace := [] |}.

Definition BaseActor_class : ActorClass :=
  {| default_options := 0; placement_group_spec := None |}.

Definition ExampleActor : ActorClass :=
  {| default_options := 1; placement_group_spec := None |}.

Definition gpu_spec : PlacementGroupSpec.t :=
  {| PlacementGroupSpec.bundles := [ {["GPU" := 1.0%float]} ];
     PlacementGroupSpec.strategy := "PACK";
     PlacementGroupSpec.timeout_s := 30.0%float |}.

Definition ExampleActorWithPlacement : ActorClass :=
  {| default_options := 2; placement_group_spec := Some gpu_spec |}.

(** Ray grants every reservation at once. *)
Definition ray_ready (pg : PlacementGroup) : Backend :=
  {| ray := true;
     placement_group := λ _ _, Ok pg;
     wait := λ _ _ _, Ok true;
     remove_placement_group := λ _ _, Ok ();
     remote := λ _ _, Ok 0 |}.

(** The reservation never becomes ready; removing it works. *)
Definition ray_never_ready (pg : PlacementGroup) : Backend :=
  {| ray := true;
     placement_group := λ _ _, Ok pg;
     wait := λ _ _ _, Ok false;
     remove_placement_group := λ _ _, Ok ();
     remote := λ _ _, Ok 0 |}.

(** The reservation never becomes ready and removing it raises. *)
Definition ray_release_fails (pg : PlacementGroup) : Backend :=
  {| ray := true;
     placement_group := λ _ _, Ok pg;
     wait := λ _ _ _, Ok false;
     remove_placement_group := λ _ _, Raise (RayError "RuntimeError");
     remote := λ _ _, Ok 0 |}.

(** The module global [ray] is [None]. *)
Definition no_ray : Backend :=
  {| ray := false;
     placement_group := λ _ _, Raise (RayError "NameError");
     wait := λ _ _ _, Raise (RayError "NameError");
     remove_placement_group := λ _ _, Raise (RayError "NameError");
     remote := λ _ _, Raise (RayError "NameError") |}.

(** ** Observations on traces and stores *)

(** The specs [create_placement_group] was entered with, in order. *)
Definition reserve_calls (tr : list event) : list PlacementGroupSpec.t :=
  omap (λ e, match e with Call_create_placement_group s => Some s | _ => None end) tr.

(** The placement groups Ray was asked to remove, in order. *)
Definition release_calls (tr : list event) : list PlacementGroup :=
  omap (λ e, match e with Call_remove_placement_group pg => Some pg | _ => None end) tr.

(** The warnings handed to the logger, in order. *)
Definition warnings (tr : list event) : list log_record :=
  omap (λ e, match e with Log_warning r => Some r | _ => None end) tr.

(** A reference held by [v] points into the store. *)
Definition live (w : World) (v : pyval) : bool :=
  match v with
  | VDict r => r <? length (dicts w)
  | _ => true
  end.

(** Every reference held by a field of [o] points into the store. *)
Definition live_fields (w : World) (o : ActorOptions.t) : bool :=
  forallb (live w) (snd <$> ActorOptions.items o).

(** [v'] is [v] itself, or a dict object allocated after [w] in place of
    the dict [v] refers to. *)
Definition same_or_fresh (w : World) (v v' : pyval) : Prop :=
  match v with
  | VDict _ => ∃ r', v' = VDict r' ∧ length (dicts w) ≤ r'
  | _ => v' = v
  end.

(** [v'] in [w'] is a value copy of [v] in [w]: the same immediate value,
    or a dict object allocated after [w] that holds the entries of the
    original. *)
Definition copy_of (w w' : World) (v v' : pyval) : Prop :=
  match v with
  | VDict r =>
      ∃ r' d, v' = VDict r' ∧ length (dicts w) ≤ r' ∧
              dicts w !! r = Some d ∧ dicts w' !! r' = Some d
  | _ => v' = v
  end.

(** The value [BaseActor.options] finds in [placement_group] before it
    decides whether to reserve: the override if there is one, the class
    default otherwise. *)
Definition merged_placement_group (w : World) (cls : ActorClass)
    (overrides : gmap string pyval) : pyval :=
  default (ActorOptions.placement_group (instances w !!! default_options cls))
          (overrides !! "placement_group").

(** The reservation that [BaseActor.options] makes for a call, with its
    outcome; [None] when the call makes none.  The outcome of a
    reservation depends on the trace alone, and [options] records nothing
    before it reserves, so the outcome is read off a reservation started in
    the world of the call. *)
Definition reservation (B : Backend) (cls : ActorClass)
    (overrides : gmap string pyval) (w : World) : option (result PlacementGroup) :=
  match placement_group_spec cls with
  | Some spec =>
      if is_None (merged_placement_group w cls overrides)
      then Some (fst (create_placement_group B spec w))
      else None
  | None => None
  end.

(** [resources] holds what its annotation says: [None] or a mapping. *)
Definition resources_typed (o : ActorOptions.t) : bool :=
  match ActorOptions.resources o with
  | VNone | VDict _ => true
  | _ => false
  end.

(** A class that declares a spec and whose default options already carry
    a placement group, loaded next to the classes of the test suite. *)
Definition PinnedActor : ActorClass :=
  {| default_options := 3; placement_group_spec := Some gpu_spec |}.

Definition loaded_pinned : World :=
  {| instances := instances loaded
                  ++ [ActorOptions.of_kwargs {["placement_group" := VHandle 3]}];
     dicts := [];
     trace := [] |}.

(** A class whose default options name a custom resource, and an instance
    with an empty resource mapping. *)
Definition TaggedActor : ActorClass :=
  {| default_options := 0; placement_group_spec := None |}.

Definition loaded_tagged : World :=
  {| instances := [ ActorOptions.of_kwargs
                      (<["resources" := VDict 0]> {["num_cpus" := VFloat 0.5%float]});
                    ActorOptions.of_kwargs
                      (<["resources" := VDict 1]> {["name" := VStr "a"]}) ];
     dicts := [ {["tpu" := 1.0%float]}; ∅ ];
     trace := [] |}.

(** The keyword dicts [ray.remote] was called with, in order. *)
Definition remote_calls (tr : list event) : list (gmap string pyval) :=
  omap (λ e, match e with Call_remote kw => Some kw | _ => None end) tr.

(** Two field values agree: they are the same value, or they refer to two
    distinct dict objects with the same entries. *)
Definition same_value (w : World) (v1 v2 : pyval) : Prop :=
  v1 = v2 ∨
  ∃ r1 r2 d, v1 = VDict r1 ∧ v2 = VDict r2 ∧ r1 ≠ r2 ∧
             dicts w !! r1 = Some d ∧ dicts w !! r2 = Some d.

(** The reservation never becomes ready and the removal is interrupted
    from the keyboard. *)
Definition ray_release_interrupted (pg : PlacementGroup) : Backend :=
  {| ray := true;
     placement_group := λ _ _, Ok pg;
     wait := λ _ _ _, Ok false;
     remove_placement_group := λ _ _, Raise (BaseExceptionOnly "KeyboardInterrupt");
     remote := λ _ _, Ok 0 |}.

(** Ray grants the reservation, but [ray.remote] raises. *)
Definition ray_remote_fails (pg : PlacementGroup) : Backend :=
  {| ray := true;
     placement_group := λ _ _, Ok pg;
     wait := λ _ _ _, Ok true;
     remove_placement_group := λ _ _, Ok ();
     remote := λ _ _, Raise (RayError "ValueError") |}.

(** The reservation is submitted, but waiting for it raises. *)
Definition ray_wait_fails (pg : PlacementGroup) : Backend :=
  {| ray := true;
     placement_group := λ _ _, Ok pg;
     wait := λ _ _ _, Raise (RayError "RaySystemError");
     remove_placement_group := λ _ _, Ok ();
     remote := λ _ _, Ok 0 |}.

(** ** Unfolding computations *)

Ltac run :=
  repeat (progress (cbn [mbind mret M_bind M_ret raise emit call try_except
                         new_dict new_instance read_dict read_instance
                         update_instance fst snd instances dicts trace negb]
                    || unfold mbind, mret, M_bind, M_ret, raise, emit, call,
                              try_except, new_dict, new_instance, read_dict,
                              read_instance, update_instance)).

Lemma reserve_calls_app tr1 tr2 :
  reserve_calls (tr1 ++ tr2) = reserve_calls tr1 ++ reserve_calls tr2.
Proof. apply omap_app. Qed.

Lemma release_calls_app tr1 tr2 :
  release_calls (tr1 ++ tr2) = release_calls tr1 ++ release_calls tr2.
Proof. apply omap_app. Qed.

(** ** [create_placement_group] *)

(** It touches no object, and enters exactly once. *)
Lemma create_placement_group_frame B spec w :
  let '(_, w') := create_placement_group B spec w in
  instances w' = instances w ∧ dicts w' = dicts w ∧
  reserve_calls (trace w') = reserve_calls (trace w) ++ [spec].
Proof.
  destruct w as [ins ds tr].
  unfold create_placement_group, _require_ray. run.
  destruct (ray B); run;
    [destruct (placement_group B _ _) as [pg|e]; run;
     [destruct (wait B _ _ _) as [[|]|e]; run;
      [|destruct (remove_placement_group B _ _) as [[]|e]; run|]|]|];
    repeat split; try done;
    rewrite <- ?(assoc_L (++)), !reserve_calls_app; simpl;
    by rewrite ?app_nil_r.
Qed.

(** Its result and its trace depend on the trace alone: the objects in
    the store play no part in a reservation. *)
Lemma create_placement_group_trace_only B spec w1 w2 :
  trace w1 = trace w2 →
  fst (create_placement_group B spec w1) = fst (create_placement_group B spec w2) ∧
  trace (snd (create_placement_group B spec w1))
  = trace (snd (create_placement_group B spec w2)).
Proof.
  destruct w1 as [ins1 ds1 tr1], w2 as [ins2 ds2 tr2]; simpl; intros ->.
  unfold create_placement_group, _require_ray. run.
  destruct (ray B); run; [|done].
  destruct (placement_group B _ _) as [pg|e]; run; [|done].
  destruct (wait B _ _ _) as [[|]|e]; run; [done| |done].
  by destruct (remove_placement_group B _ _) as [[]|e].
Qed.

(** Without Ray nothing is submitted. *)
Lemma create_placement_group_no_ray B spec w :
  ray B = false →
  create_placement_group B spec w
  = (Raise RayDependencyError,
     mkWorld (instances w) (dicts w) (trace w ++ [Call_create_placement_group spec])).
Proof.
  intros HB. unfold create_placement_group, _require_ray. run. by rewrite HB.
Qed.

(** The timeout path, whatever the removal answers: one removal is asked
    for, and the exception that leaves the function is [PlacementFailure]
    only if the removal returned. *)
Lemma create_placement_group_timeout B spec w pg :
  let kw := PlacementGroupSpec.to_kwargs spec in
  let t := PlacementGroupSpec.timeout_s spec in
  let h1 := trace w ++ [Call_create_placement_group spec] in
  let h2 := h1 ++ [Call_placement_group kw] in
  let h3 := h2 ++ [Call_wait pg t] in
  ray B = true →
  placement_group B h1 kw = Ok pg →
  wait B h2 pg t = Ok false →
  create_placement_group B spec w
  = (match remove_placement_group B h3 pg with
     | Ok _ => Raise (PlacementFailure t)
     | Raise e => Raise e
     end,
     mkWorld (instances w) (dicts w) (h3 ++ [Call_remove_placement_group pg])).
Proof.
  intros kw t h1 h2 h3 HB Hpg Hwait. subst kw t h1 h2 h3.
  unfold create_placement_group, _require_ray. run.
  rewrite HB. run. rewrite Hpg. run. rewrite Hwait. run.
  by destruct (remove_placement_group B _ _) as [[]|e].
Qed.

(** The success path. *)
Lemma create_placement_group_ready B spec w pg :
  let kw := PlacementGroupSpec.to_kwargs spec in
  let t := PlacementGroupSpec.timeout_s spec in
  let h1 := trace w ++ [Call_create_placement_group spec] in
  let h2 := h1 ++ [Call_placement_group kw] in
  ray B = true →
  placement_group B h1 kw = Ok pg →
  wait B h2 pg t = Ok true →
  create_placement_group B spec w
  = (Ok pg,
     mkWorld (instances w) (dicts w)
       (h2 ++ [Call_wait pg t] ++ [Log_debug (Created_placement_group pg spec)])).
Proof.
  intros kw t h1 h2 HB Hpg Hwait. subst kw t h1 h2.
  unfold create_placement_group, _require_ray. run.
  rewrite HB. run. rewrite Hpg. run. rewrite Hwait. run.
  by rewrite <- (assoc_L (++)).
Qed.

(** C2, at a reservation that times out while Ray's removal raises: one
    removal is asked for, but the exception that reaches the caller is the
    removal's, not [PlacementFailure]. *)
Theorem reserve_timeout_release_raises :
  let '(r, w') := create_placement_group (ray_release_fails 7) gpu_spec loaded in
  release_calls (trace w') = [7] ∧
  r = Raise (RayError "RuntimeError") ∧
  ∀ t, r ≠ Raise (PlacementFailure t).
Proof.
  rewrite (create_placement_group_timeout _ _ _ 7) by reflexivity.
  split; [reflexivity|]. split; [reflexivity|]. intros t; discriminate.
Qed.

(** C3, at the same reservation: the failure of the removal is not
    logged and not swallowed; it propagates.  The sibling
    [remove_placement_group_safe] given the same handle swallows it and
    logs a warning. *)
Theorem reserve_cleanup_failure_propagates :
  let '(r, w') := create_placement_group (ray_release_fails 7) gpu_spec loaded in
  let '(r_safe, w_safe) := remove_placement_group_safe (ray_release_fails 7) (Some 7) loaded in
  r = Raise (RayError "RuntimeError") ∧ warnings (trace w') = [] ∧
  r_safe = Ok () ∧
  warnings (trace w_safe) = [Failed_to_remove_placement_group 7 (RayError "RuntimeError")].
Proof.
  rewrite (create_placement_group_timeout _ _ _ 7) by reflexivity.
  repeat split; reflexivity.
Qed.

(** ** [remove_placement_group_safe] *)

(** C6, as the code has it: [remove_placement_group_safe] never changes an
    object.  Given [None] it returns and leaves the world as it is (no call
    into Ray, no log record).  Given a handle it asks Ray once for the
    removal; when that raises an instance of [Exception], the exception
    ends in a warning of the logger and the function returns; when it
    raises anything else ([KeyboardInterrupt], [SystemExit]), the
    [except Exception] clause lets it through to the caller, unlogged. *)
Theorem remove_placement_group_safe_outcome B pg w :
  let '(r, w') := remove_placement_group_safe B pg w in
  instances w' = instances w ∧ dicts w' = dicts w ∧
  match pg with
  | None => r = Ok () ∧ w' = w
  | Some p =>
      match remove_placement_group B (trace w) p with
      | Ok _ =>
          r = Ok () ∧
          trace w' = trace w ++ [Call_remove_placement_group p;
                                 Log_debug (Removed_placement_group p)]
      | Raise e =>
          if is_Exception e then
            r = Ok () ∧
            trace w' = trace w ++ [Call_remove_placement_group p;
                                   Log_warning (Failed_to_remove_placement_group p e)]
          else
            r = Raise e ∧ trace w' = trace w ++ [Call_remove_placement_group p]
      end
  end.
Proof.
  destruct pg as [p|]; [|done].
  unfold remove_placement_group_safe. run.
  destruct (remove_placement_group B (trace w) p) as [[]|e]; run;
    [|destruct (is_Exception e)]; cbn [instances dicts trace];
    repeat split; try done; by rewrite <- (assoc_L (++)).
Qed.

(** C6 as stated fails: a removal interrupted from the keyboard raises
    [KeyboardInterrupt], which is no instance of [Exception]; it leaves
    [remove_placement_group_safe] and reaches the caller, and no warning is
    logged. *)
Lemma remove_placement_group_safe_propagates_interrupt :
  let '(r, w') := remove_placement_group_safe (ray_release_interrupted 7)
                    (Some 7) loaded in
  r = Raise (BaseExceptionOnly "KeyboardInterrupt") ∧ r ≠ Ok () ∧
  release_calls (trace w') = [7] ∧ warnings (trace w') = [].
Proof. vm_compute. repeat split; discriminate. Qed.

(** ** [PlacementGroupSpec] *)

(** C8, as the code has it: constructing a [PlacementGroupSpec] never
    fails and stores the bundles and the timeout it is given, whatever they
    are; omitted, the strategy is ["PACK"] and the timeout [30.0]. *)
Theorem PlacementGroupSpec_new_unchecked
    (bundles : list ResourceBundle) (strategy : option PlacementStrategy)
    (timeout_s : option float) :
  ∃ spec, PlacementGroupSpec.new bundles strategy timeout_s = Ok spec ∧
          PlacementGroupSpec.bundles spec = bundles ∧
          PlacementGroupSpec.strategy spec = default "PACK" strategy ∧
          PlacementGroupSpec.timeout_s spec = default 30.0%float timeout_s ∧
          PlacementGroupSpec.to_kwargs spec
          = {| PlacementGroupSpec.kw_bundles := bundles;
               PlacementGroupSpec.kw_strategy := default "PACK" strategy |}.
Proof. eexists. split; [reflexivity|]. by repeat split. Qed.

(** C8 as stated fails: a spec with no bundle and a negative timeout is
    constructed like any other. *)
Lemma PlacementGroupSpec_invariants_not_enforced :
  ¬ (∀ bundles strategy timeout_s spec,
       PlacementGroupSpec.new bundles strategy timeout_s = Ok spec →
       PlacementGroupSpec.bundles spec ≠ [] ∧
       PrimFloat.ltb 0%float (PlacementGroupSpec.timeout_s spec) = true).
Proof.
  intros H.
  destruct (H [] None (Some (-1.0)%float) _ eq_refl) as [Hne _].
  by apply Hne.
Qed.

(** ** Fields of an instance *)

Ltac case_field k :=
  match goal with
  | |- context [String.eqb ?a k] => destruct (String.eqb_spec a k) as [<-|_]
  end.

Lemma getattr_field o k v :
  ActorOptions.getattr o k = Some v → k ∈ ActorOptions.field_names.
Proof.
  unfold ActorOptions.getattr, ActorOptions.items, ActorOptions.field_names.
  cbn [ActorOptions.assoc].
  repeat (case_field k;
    [intros _; rewrite !elem_of_cons; tauto|]).
  discriminate.
Qed.

Lemma field_getattr o k :
  k ∈ ActorOptions.field_names → is_Some (ActorOptions.getattr o k).
Proof.
  unfold ActorOptions.field_names. rewrite !elem_of_cons, elem_of_nil.
  intros H; repeat (destruct H as [->|H]; [by eexists|]). done.
Qed.

Lemma getattr_of_kwargs kw k v :
  k ∈ ActorOptions.field_names → kw !! k = Some v →
  ActorOptions.getattr (ActorOptions.of_kwargs kw) k = Some v.
Proof.
  unfold ActorOptions.field_names. rewrite !elem_of_cons, elem_of_nil.
  intros H Hk; repeat (destruct H as [->|H];
    [unfold ActorOptions.getattr; cbn; by rewrite Hk|]). done.
Qed.

Lemma getattr_set_placement_group o v k :
  k ≠ "placement_group" →
  ActorOptions.getattr (ActorOptions.set_placement_group v o) k
  = ActorOptions.getattr o k.
Proof.
  intros Hk. unfold ActorOptions.getattr, ActorOptions.items.
  cbn [ActorOptions.assoc ActorOptions.set_placement_group
       ActorOptions.num_cpus ActorOptions.num_gpus ActorOptions.resources
       ActorOptions.max_concurrency ActorOptions.name ActorOptions.namespace
       ActorOptions.lifetime ActorOptions.placement_group].
  repeat (case_field k; [done|]). done.
Qed.

Lemma live_fields_getattr w o k v :
  live_fields w o = true → ActorOptions.getattr o k = Some v → live w v = true.
Proof.
  unfold live_fields, ActorOptions.getattr. intros Hall.
  assert (Hin : ∀ kvs, ActorOptions.assoc k kvs = Some v → In v (snd <$> kvs)).
  { induction kvs as [|[k' v'] kvs IH]; [done|]. simpl.
    destruct (String.eqb k' k); [intros [= ->]; by left | right; auto]. }
  intros Hk. eapply forallb_forall in Hall; [done | by apply Hin].
Qed.

(** ** [dataclasses.asdict] *)

Lemma live_lookup w r :
  live w (VDict r) = true → dicts w !! r = Some (dicts w !!! r).
Proof.
  simpl. intros Hr%Nat.ltb_lt.
  destruct (lookup_lt_is_Some_2 (dicts w) r Hr) as [d Hd].
  by rewrite (list_lookup_total_correct _ _ _ Hd).
Qed.

Lemma deepcopy_spec v w :
  ∃ v' w', deepcopy v w = (Ok v', w') ∧
    instances w' = instances w ∧ trace w' = trace w ∧
    (∃ ds, dicts w' = dicts w ++ ds) ∧
    is_None v' = is_None v ∧
    same_or_fresh w v v' ∧
    (live w v = true → copy_of w w' v v').
Proof.
  destruct v as [| | | |r|];
    try (eexists _, w; repeat split; try done; exists []; by rewrite app_nil_r).
  unfold deepcopy. run. eexists _, _. split; [reflexivity|]. simpl.
  repeat split; try done; [by eexists | by eexists |].
  intros Hlive. eexists _, _. repeat split; [done | by apply live_lookup |].
  by rewrite list_lookup_middle.
Qed.

Lemma same_or_fresh_earlier w w1 v v' ds :
  dicts w1 = dicts w ++ ds → same_or_fresh w1 v v' → same_or_fresh w v v'.
Proof.
  intros Hds. destruct v; simpl; try done.
  intros (r' & -> & Hr'). exists r'. split; [done|].
  rewrite Hds, length_app in Hr'. lia.
Qed.

Lemma copy_of_later w w1 w2 v v' ds :
  dicts w2 = dicts w1 ++ ds → copy_of w w1 v v' → copy_of w w2 v v'.
Proof.
  intros Hds. destruct v; simpl; try done.
  intros (r' & d & -> & Hr' & Hr & Hd). exists r', d. repeat split; try done.
  rewrite Hds. by apply lookup_app_l_Some.
Qed.

Lemma copy_of_earlier w w1 w2 v v' ds :
  dicts w1 = dicts w ++ ds → live w v = true →
  copy_of w1 w2 v v' → copy_of w w2 v v'.
Proof.
  intros Hds Hlive. destruct v as [| | | |r|]; simpl; try done.
  intros (r' & d & -> & Hr' & Hr & Hd). exists r', d.
  simpl in Hlive. apply Nat.ltb_lt in Hlive.
  rewrite Hds in Hr, Hr'. rewrite length_app in Hr'.
  rewrite lookup_app_l in Hr by done.
  repeat split; try done. lia.
Qed.

Lemma live_later w w1 v ds :
  dicts w1 = dicts w ++ ds → live w v = true → live w1 v = true.
Proof.
  intros Hds. destruct v; simpl; try done.
  rewrite !Nat.ltb_lt, Hds, length_app. lia.
Qed.

Lemma asdict_items_spec kvs w :
  ∃ d w', asdict_items kvs w = (Ok d, w') ∧
    instances w' = instances w ∧ trace w' = trace w ∧
    (∃ ds, dicts w' = dicts w ++ ds) ∧
    ∀ k, match ActorOptions.assoc k kvs with
         | None => d !! k = None
         | Some v =>
             ∃ v', d !! k = Some v' ∧ is_None v' = is_None v ∧
                   same_or_fresh w v v' ∧
                   (live w v = true → copy_of w w' v v')
         end.
Proof.
  revert w. induction kvs as [|[k0 v0] kvs IH]; intros w.
  { exists ∅, w. repeat split; try done. exists []. by rewrite app_nil_r. }
  destruct (deepcopy_spec v0 w)
    as (v0' & w1 & Hcopy & Hins1 & Htr1 & [ds1 Hds1] & Hnone & Hfresh & Hcp).
  destruct (IH w1) as (d & w2 & Hrest & Hins2 & Htr2 & [ds2 Hds2] & Hd).
  exists (<[k0 := v0']> d), w2. split.
  { cbn [asdict_items]. unfold mbind, M_bind at 1. rewrite Hcopy.
    unfold mbind, M_bind at 1. by rewrite Hrest. }
  split; [congruence|]. split; [congruence|]. split.
  { exists (ds1 ++ ds2). by rewrite Hds2, Hds1, (assoc_L (++)). }
  intros k. cbn [ActorOptions.assoc].
  destruct (String.eqb_spec k0 k) as [<-|Hne].
  - exists v0'. rewrite lookup_insert_eq. repeat split; try done.
    intros Hlive. eapply copy_of_later; eauto.
  - rewrite lookup_insert_ne by done. specialize (Hd k).
    destruct (ActorOptions.assoc k kvs) as [v|]; [|done].
    destruct Hd as (v' & Hk & Hn & Hf & Hc). exists v'.
    repeat split; try done.
    + eapply same_or_fresh_earlier; eauto.
    + intros Hlive. eapply copy_of_earlier; eauto.
      apply Hc. eapply live_later; eauto.
Qed.

Lemma asdict_spec obj w :
  ∃ d w', asdict obj w = (Ok d, w') ∧
    instances w' = instances w ∧ trace w' = trace w ∧
    (∃ ds, dicts w' = dicts w ++ ds) ∧
    ∀ k, match ActorOptions.getattr (instances w !!! obj) k with
         | None => d !! k = None
         | Some v =>
             ∃ v', d !! k = Some v' ∧ is_None v' = is_None v ∧
                   same_or_fresh w v v' ∧
                   (live w v = true → copy_of w w' v v')
         end.
Proof.
  unfold asdict. run. apply asdict_items_spec.
Qed.

(** ** The constructor *)

Lemma known_keys_union overrides (d : gmap string pyval) :
  (∀ k, is_Some (d !! k) → k ∈ ActorOptions.field_names) →
  known_keys (overrides ∪ d) = known_keys overrides.
Proof.
  intros Hd. unfold known_keys. apply bool_decide_ext. split.
  - intros H k v Hk. apply (H k v). by apply lookup_union_Some_l.
  - intros H k v [Hk|[_ Hk]]%lookup_union_Some_raw; [by apply (H k v)|].
    apply Hd. by eexists.
Qed.

Lemma known_keys_false overrides k :
  is_Some (overrides !! k) → k ∉ ActorOptions.field_names →
  known_keys overrides = false.
Proof.
  intros [v Hk] Hnot. apply bool_decide_eq_false. intros H. by apply Hnot, (H k v).
Qed.

Lemma known_keys_true overrides k v :
  known_keys overrides = true → overrides !! k = Some v →
  k ∈ ActorOptions.field_names.
Proof.
  intros H%bool_decide_eq_true Hk. by apply (H k v).
Qed.

(** ** [BaseActor.options], step by step *)

Lemma asdict_keys obj w d w1 k :
  asdict obj w = (Ok d, w1) → is_Some (d !! k) → k ∈ ActorOptions.field_names.
Proof.
  intros Heq [v' Hk].
  destruct (asdict_spec obj w) as (d0 & w0 & Heq0 & _ & _ & _ & Hd).
  rewrite Heq in Heq0. injection Heq0 as <- <-. specialize (Hd k).
  destruct (ActorOptions.getattr _ k) as [v|] eqn:Hget; [|congruence].
  by eapply getattr_field.
Qed.

Lemma options_run B cls overrides w :
  ∃ d w1, asdict (default_options cls) w = (Ok d, w1) ∧
    instances w1 = instances w ∧ trace w1 = trace w ∧
    (∃ ds, dicts w1 = dicts w ++ ds) ∧
    (∀ k, match ActorOptions.getattr (instances w !!! default_options cls) k with
          | None => d !! k = None
          | Some v =>
              ∃ v', d !! k = Some v' ∧ is_None v' = is_None v ∧
                    same_or_fresh w v v' ∧
                    (live w v = true → copy_of w w1 v v')
          end) ∧
    let o := ActorOptions.of_kwargs (overrides ∪ d) in
    let l := length (instances w) in
    let w2 := mkWorld (instances w ++ [o]) (dicts w1) (trace w) in
    BaseActor.options B cls overrides w
    = if known_keys overrides then
        match placement_group_spec cls with
        | Some spec =>
            if is_None (ActorOptions.placement_group o) then
              match create_placement_group B spec w2 with
              | (Ok pg, w3) =>
                  (Ok l,
                   mkWorld (alter (ActorOptions.set_placement_group (VHandle pg)) l
                              (instances w3))
                           (dicts w3) (trace w3))
              | (Raise e, w3) => (Raise e, w3)
              end
            else (Ok l, w2)
        | None => (Ok l, w2)
        end
      else (Raise TypeError, w1).
Proof.
  destruct (asdict_spec (default_options cls) w)
    as (d & w1 & Heq & Hins & Htr & Hds & Hd).
  exists d, w1. do 5 (split; [done|]). intros o l w2.
  unfold BaseActor.options, ActorOptions_init.
  unfold mbind, M_bind at 1. rewrite Heq.
  rewrite (known_keys_union overrides d)
    by (intros k; by apply (asdict_keys _ _ _ _ _ Heq)).
  destruct (known_keys overrides); [|done].
  run. rewrite Hins, Htr, list_lookup_total_middle by done.
  fold o. fold l. fold w2.
  destruct (placement_group_spec cls) as [spec|]; [|done].
  destruct (is_None (ActorOptions.placement_group o)); [|done].
  by destruct (create_placement_group B spec w2) as [[pg|e] w3].
Qed.

(** The field the reservation test reads is the merged one. *)
Lemma placement_group_merged cls overrides w (d : gmap string pyval) v' :
  d !! "placement_group" = Some v' →
  is_None v'
  = is_None (ActorOptions.placement_group (instances w !!! default_options cls)) →
  is_None (ActorOptions.placement_group (ActorOptions.of_kwargs (overrides ∪ d)))
  = is_None (merged_placement_group w cls overrides).
Proof.
  intros Hd Hn. unfold merged_placement_group.
  cbn [ActorOptions.of_kwargs ActorOptions.placement_group].
  destruct (overrides !! "placement_group") as [v|] eqn:Hov.
  - by rewrite (lookup_union_Some_l _ _ _ _ Hov).
  - by rewrite lookup_union_r, Hd.
Qed.

Ltac options_steps B cls overrides w :=
  let d := fresh "d" in let w1 := fresh "w1" in
  let Hins := fresh "Hins" in let Htr := fresh "Htr" in
  let Hds := fresh "Hds" in let Hd := fresh "Hd" in
  let Hrun := fresh "Hrun" in let Hpg := fresh "Hpg" in
  let v' := fresh "v'" in
  destruct (options_run B cls overrides w)
    as (d & w1 & _ & Hins & Htr & Hds & Hd & Hrun);
  cbv zeta in Hrun; rewrite Hrun; clear Hrun;
  assert (Hpg : is_None (ActorOptions.placement_group
                           (ActorOptions.of_kwargs (overrides ∪ d)))
                = is_None (merged_placement_group w cls overrides))
    by (generalize (Hd "placement_group"); cbn;
        intros (v' & ? & ? & _); by eapply placement_group_merged);
  rewrite Hpg.

(** C1, as the code has it: when the overrides contain a key that is not a
    field of [ActorOptions], [BaseActor.options] raises the built-in
    [TypeError] of the constructor; nothing was recorded in the trace by
    then (no entry into [create_placement_group], no call into Ray) and no
    instance was changed. *)
Theorem options_unknown_key B cls overrides w k :
  is_Some (overrides !! k) → k ∉ ActorOptions.field_names →
  ∃ w', BaseActor.options B cls overrides w = (Raise TypeError, w') ∧
        trace w' = trace w ∧ instances w' = instances w.
Proof.
  intros Hk Hnot. options_steps B cls overrides w.
  rewrite (known_keys_false _ _ Hk Hnot). by exists w1.
Qed.

Lemma options_unknown_key_witness :
  ∃ w', BaseActor.options (ray_ready 7) ExampleActorWithPlacement
          {["num_cpu" := VInt 2]} loaded = (Raise TypeError, w') ∧
        trace w' = trace loaded ∧ instances w' = instances loaded.
Proof.
  apply (options_unknown_key _ _ _ _ "num_cpu").
  - by eexists.
  - apply (proj1 (bool_decide_eq_false _)). reflexivity.
Defined.

(** C1 as stated fails: the exception raised on an unknown key is not an
    [InvalidOptionError]; the module has no such class. *)
Lemma options_unknown_key_not_InvalidOptionError :
  let overrides : gmap string pyval := {["num_cpu" := VInt 2]} in
  is_Some (overrides !! "num_cpu") ∧ ("num_cpu" ∉ ActorOptions.field_names) ∧
  ¬ ∃ e w', BaseActor.options (ray_ready 7) ExampleActor overrides loaded
            = (Raise e, w') ∧
            class_name e = "InvalidOptionError" ∧
            reserve_calls (trace w') = reserve_calls (trace loaded).
Proof.
  split; [by eexists|]. split.
  - apply (proj1 (bool_decide_eq_false _)). reflexivity.
  - intros (e & w' & Hrun & Hname & _). vm_compute in Hrun.
    injection Hrun as <- _. discriminate.
Qed.

(** ** [BaseActor.as_remote] *)

(** C7: when the module global [ray] is [None], [BaseActor.as_remote]
    raises [RayDependencyError] (the spec's RuntimeDependencyError) and
    leaves the world as it was: the trace records no entry into
    [create_placement_group], nor anything else. *)
Theorem as_remote_requires_ray B cls overrides w :
  ray B = false →
  BaseActor.as_remote B cls overrides w = (Raise RayDependencyError, w) ∧
  reserve_calls (trace (snd (BaseActor.as_remote B cls overrides w)))
  = reserve_calls (trace w).
Proof.
  intros HB.
  assert (Hrun : BaseActor.as_remote B cls overrides w = (Raise RayDependencyError, w)).
  { unfold BaseActor.as_remote, _require_ray. rewrite HB. reflexivity. }
  by rewrite Hrun.
Qed.

Lemma as_remote_requires_ray_witness :
  BaseActor.as_remote no_ray ExampleActorWithPlacement ∅ loaded
  = (Raise RayDependencyError, loaded) ∧
  reserve_calls (trace (snd (BaseActor.as_remote no_ray ExampleActorWithPlacement ∅ loaded)))
  = reserve_calls (trace loaded).
Proof. apply as_remote_requires_ray. reflexivity. Defined.

(** ** Reservation during resolution *)

(** C5, as the code has it: [BaseActor.options] enters
    [create_placement_group] exactly once, with the spec of the class, when
    the class has a spec, every override key is a field and the merged
    [placement_group] (the override, else the class default) is [None]; the
    handle that call returns is stored in the result, and an exception it
    raises is the outcome of [options].  In every other case the trace is
    left as it was: [create_placement_group] is not entered. *)
Theorem options_reserves_once B cls overrides w :
  let '(r, w') := BaseActor.options B cls overrides w in
  match placement_group_spec cls with
  | Some spec =>
      if known_keys overrides && is_None (merged_placement_group w cls overrides)
      then
        reserve_calls (trace w') = reserve_calls (trace w) ++ [spec] ∧
        match fst (create_placement_group B spec w) with
        | Ok pg =>
            ∃ l o, r = Ok l ∧ instances w' !! l = Some o ∧
                   ActorOptions.placement_group o = VHandle pg
        | Raise e => r = Raise e
        end
      else trace w' = trace w
  | None => trace w' = trace w
  end.
Proof.
  options_steps B cls overrides w.
  destruct (placement_group_spec cls) as [spec|];
    [|by destruct (known_keys overrides)].
  destruct (known_keys overrides); [|done]. cbn [andb].
  destruct (is_None (merged_placement_group w cls overrides)); [|done].
  match goal with |- context [create_placement_group B spec ?w2] =>
    pose proof (create_placement_group_frame B spec w2) as Hframe;
    destruct (create_placement_group_trace_only B spec w2 w eq_refl) as [Hfst _];
    destruct (create_placement_group B spec w2) as [[pg|e] w3]
  end; cbn [fst snd trace instances dicts] in *;
    destruct Hframe as (Hins3 & _ & Hcalls); rewrite <- Hfst;
    (split; [done|]); [|done].
  eexists _, _. split; [done|]. rewrite Hins3. split.
  - by rewrite list_lookup_alter_eq, list_lookup_middle.
  - done.
Qed.

(** C5 as stated fails on two kinds of input, each with a spec on the
    class and no placement group among the overrides: a class whose
    default options already hold a placement group, and overrides with an
    unknown key.  [create_placement_group] is not entered in either. *)
Lemma options_reserve_not_always :
  (placement_group_spec PinnedActor = Some gpu_spec ∧
   (∅ : gmap string pyval) !! "placement_group" = None ∧
   let w' := snd (BaseActor.options (ray_ready 7) PinnedActor ∅ loaded_pinned) in
   reserve_calls (trace w') = [] ∧
   reserve_calls (trace w') ≠ reserve_calls (trace loaded_pinned) ++ [gpu_spec]) ∧
  (placement_group_spec ExampleActorWithPlacement = Some gpu_spec ∧
   ({["num_cpu" := VInt 2]} : gmap string pyval) !! "placement_group" = None ∧
   let w' := snd (BaseActor.options (ray_ready 7) ExampleActorWithPlacement
                    {["num_cpu" := VInt 2]} loaded) in
   reserve_calls (trace w') = [] ∧
   reserve_calls (trace w') ≠ reserve_calls (trace loaded) ++ [gpu_spec]).
Proof.
  split; (split; [reflexivity|]); (split; [reflexivity|]);
    (split; [by vm_compute|]); by vm_compute.
Qed.

(** ** Merging defaults and overrides *)

Lemma copy_of_same_dicts w w1 w2 v v' :
  dicts w2 = dicts w1 → copy_of w w1 v v' → copy_of w w2 v v'.
Proof.
  intros Hds. apply (copy_of_later w w1 w2 v v' []). by rewrite app_nil_r.
Qed.

(** C4, as the code has it: with overrides whose keys are all fields,
    [BaseActor.options] returns a new instance in which a field named in
    the overrides holds the override and any other field holds a value copy
    of the class default; the one exception is [placement_group] when a
    reservation is made (the class has a spec and the merged field is
    [None]): it then holds the handle [create_placement_group] returned.
    [options] raises only when that reservation raises, and raises the same
    exception. *)
Theorem options_merges_overrides B cls overrides w o_def :
  instances w !! default_options cls = Some o_def →
  live_fields w o_def = true →
  known_keys overrides = true →
  let '(r, w') := BaseActor.options B cls overrides w in
  match r with
  | Ok l =>
      ∃ o, instances w' !! l = Some o ∧
        (∀ k v, overrides !! k = Some v →
           (k = "placement_group" → reservation B cls overrides w = None) →
           ActorOptions.getattr o k = Some v) ∧
        (∀ k v, overrides !! k = None → ActorOptions.getattr o_def k = Some v →
           (k = "placement_group" → reservation B cls overrides w = None) →
           ∃ v', ActorOptions.getattr o k = Some v' ∧ copy_of w w' v v') ∧
        (∀ res, reservation B cls overrides w = Some res →
           ∃ pg, res = Ok pg ∧ ActorOptions.placement_group o = VHandle pg)
  | Raise e => reservation B cls overrides w = Some (Raise e)
  end.
Proof.
  intros Hdef Hlive Hknown. unfold reservation.
  options_steps B cls overrides w. rewrite Hknown.
  rewrite (list_lookup_total_correct _ _ _ Hdef) in Hd.
  set (o := ActorOptions.of_kwargs (overrides ∪ d)).
  assert (Hov : ∀ k v, overrides !! k = Some v → ActorOptions.getattr o k = Some v).
  { intros k v Hk. apply getattr_of_kwargs; [by eapply known_keys_true|].
    by apply lookup_union_Some_l. }
  assert (Hdf : ∀ k v, overrides !! k = None → ActorOptions.getattr o_def k = Some v →
                 ∃ v', ActorOptions.getattr o k = Some v' ∧ copy_of w w1 v v').
  { intros k v Hk Hv. specialize (Hd k). rewrite Hv in Hd.
    destruct Hd as (v' & Hdk & _ & _ & Hcp). exists v'. split.
    - apply getattr_of_kwargs; [by eapply getattr_field|].
      by rewrite lookup_union_r.
    - apply Hcp. by eapply live_fields_getattr. }
  assert (Hplain : ∀ res : option (result PlacementGroup), res = None →
            ∃ o0, (instances w ++ [o]) !! length (instances w) = Some o0 ∧
              (∀ k v, overrides !! k = Some v → (k = "placement_group" → res = None) →
                 ActorOptions.getattr o0 k = Some v) ∧
              (∀ k v, overrides !! k = None → ActorOptions.getattr o_def k = Some v →
                 (k = "placement_group" → res = None) →
                 ∃ v', ActorOptions.getattr o0 k = Some v' ∧
                       copy_of w (mkWorld (instances w ++ [o]) (dicts w1) (trace w)) v v') ∧
              (∀ res0, res = Some res0 →
                 ∃ pg, res0 = Ok pg ∧ ActorOptions.placement_group o0 = VHandle pg)).
  { intros res ->. exists o. split; [by rewrite list_lookup_middle|].
    split; [auto|]. split; [|intros res; discriminate].
    intros k v Hk Hv _. destruct (Hdf k v Hk Hv) as (v' & ? & ?).
    exists v'. split; [done|]. by eapply copy_of_same_dicts. }
  destruct (placement_group_spec cls) as [spec|].
  2:{ by apply Hplain. }
  destruct (is_None (merged_placement_group w cls overrides)).
  2:{ by apply Hplain. }
  clear Hplain.
  match goal with |- context [create_placement_group B spec ?w2] =>
    pose proof (create_placement_group_frame B spec w2) as Hframe;
    destruct (create_placement_group_trace_only B spec w2 w eq_refl) as [Hfst _];
    destruct (create_placement_group B spec w2) as [[pg|e] w3]
  end; cbn [fst snd trace instances dicts] in *;
    destruct Hframe as (Hins3 & Hds3 & _); rewrite <- Hfst; [|done].
  exists (ActorOptions.set_placement_group (VHandle pg) o). rewrite Hins3.
  split; [by rewrite list_lookup_alter_eq, list_lookup_middle|].
  split; [|split].
  - intros k v Hk Hne. rewrite getattr_set_placement_group; [auto|].
    intros ->. by specialize (Hne eq_refl).
  - intros k v Hk Hv Hne.
    destruct (Hdf k v Hk Hv) as (v' & Hget & Hcp). exists v'. split.
    + rewrite getattr_set_placement_group; [done|].
      intros ->. by specialize (Hne eq_refl).
    + by eapply copy_of_same_dicts.
  - intros res [= <-]. by exists pg.
Qed.

Lemma options_merges_overrides_witness :
  let '(r, w') := BaseActor.options (ray_ready 7) ExampleActor
                    {["num_cpus" := VInt 2]} loaded in
  match r with
  | Ok l =>
      ∃ o, instances w' !! l = Some o ∧
        (∀ k v, ({["num_cpus" := VInt 2]} : gmap string pyval) !! k = Some v →
           (k = "placement_group" →
            reservation (ray_ready 7) ExampleActor {["num_cpus" := VInt 2]} loaded = None) →
           ActorOptions.getattr o k = Some v) ∧
        (∀ k v, ({["num_cpus" := VInt 2]} : gmap string pyval) !! k = None →
           ActorOptions.getattr (options_of (VInt 1) (VFloat 0.25%float)) k = Some v →
           (k = "placement_group" →
            reservation (ray_ready 7) ExampleActor {["num_cpus" := VInt 2]} loaded = None) →
           ∃ v', ActorOptions.getattr o k = Some v' ∧ copy_of loaded w' v v') ∧
        (∀ res, reservation (ray_ready 7) ExampleActor {["num_cpus" := VInt 2]} loaded
                = Some res →
           ∃ pg, res = Ok pg ∧ ActorOptions.placement_group o = VHandle pg)
  | Raise e =>
      reservation (ray_ready 7) ExampleActor {["num_cpus" := VInt 2]} loaded
      = Some (Raise e)
  end.
Proof.
  apply (options_merges_overrides (ray_ready 7) ExampleActor
           {["num_cpus" := VInt 2]} loaded (options_of (VInt 1) (VFloat 0.25%float)));
    reflexivity.
Defined.

(** C4 as stated fails: [ExampleActorWithPlacement.options()] returns an
    instance whose [placement_group], absent from the overrides, is not the
    class default [None] but the handle just reserved. *)
Lemma options_placement_group_not_default :
  ∃ l w' o o_def,
    BaseActor.options (ray_ready 7) ExampleActorWithPlacement ∅ loaded = (Ok l, w') ∧
    instances w' !! l = Some o ∧
    instances loaded !! default_options ExampleActorWithPlacement = Some o_def ∧
    known_keys ∅ = true ∧
    (∅ : gmap string pyval) !! "placement_group" = None ∧
    ActorOptions.getattr o_def "placement_group" = Some VNone ∧
    ActorOptions.getattr o "placement_group" = Some (VHandle 7) ∧
    ¬ copy_of loaded w' VNone (VHandle 7).
Proof.
  eexists _, _, _, _. split; [by vm_compute|].
  split; [reflexivity|]. split; [reflexivity|].
  do 4 (split; [reflexivity|]). simpl. discriminate.
Qed.

(** ** The shared defaults *)

Lemma getattr_of_kwargs_dict kw k r :
  ActorOptions.getattr (ActorOptions.of_kwargs kw) k = Some (VDict r) →
  kw !! k = Some (VDict r).
Proof.
  intros Hget. pose proof (getattr_field _ _ _ Hget) as Hk. revert Hk Hget.
  unfold ActorOptions.field_names. rewrite !elem_of_cons, elem_of_nil.
  intros Hk; repeat (destruct Hk as [->|Hk];
    [unfold ActorOptions.getattr; cbn;
     destruct (kw !! _) as [v|]; [by intros [= ->] | discriminate]|]).
  done.
Qed.

Lemma getattr_set_placement_group_dict o pg k r :
  ActorOptions.getattr (ActorOptions.set_placement_group (VHandle pg) o) k
  = Some (VDict r) →
  ActorOptions.getattr o k = Some (VDict r).
Proof.
  destruct (decide (k = "placement_group")) as [->|Hne].
  - discriminate.
  - by rewrite getattr_set_placement_group.
Qed.

(** C9: [BaseActor.options] leaves every instance and every dict object
    that existed before the call as it was, whether it returns or raises;
    the class default is one of them.  What it returns is a new instance,
    not the default one, and a dict that a field of the result refers to is
    either the very object the caller passed for that field or one
    allocated during the call: none is shared with the defaults. *)
Theorem options_preserves_defaults B cls overrides w :
  default_options cls < length (instances w) →
  let '(r, w') := BaseActor.options B cls overrides w in
  instances w' !! default_options cls = instances w !! default_options cls ∧
  (∀ l, l < length (instances w) → instances w' !! l = instances w !! l) ∧
  (∀ r0, r0 < length (dicts w) → dicts w' !! r0 = dicts w !! r0) ∧
  ∀ l, r = Ok l →
    l = length (instances w) ∧ l ≠ default_options cls ∧
    ∃ o, instances w' !! l = Some o ∧
      ∀ k r0, ActorOptions.getattr o k = Some (VDict r0) →
        overrides !! k = Some (VDict r0) ∨ length (dicts w) ≤ r0.
Proof.
  intros Hdef. options_steps B cls overrides w.
  destruct Hds as [ds Hds].
  set (o := ActorOptions.of_kwargs (overrides ∪ d)).
  assert (Hfresh : ∀ k r0, ActorOptions.getattr o k = Some (VDict r0) →
            overrides !! k = Some (VDict r0) ∨ length (dicts w) ≤ r0).
  { intros k r0 Hget%getattr_of_kwargs_dict.
    apply lookup_union_Some_raw in Hget as [Hov|[_ Hdk]]; [by left|right].
    specialize (Hd k). destruct (ActorOptions.getattr _ k) as [v|]; [|congruence].
    destruct Hd as (v' & Hdk' & _ & Hsf & _). rewrite Hdk in Hdk'.
    injection Hdk' as <-. destruct v; simpl in Hsf; try discriminate.
    destruct Hsf as (r' & [= ->] & Hr'). done. }
  assert (Hold : ∀ l, l < length (instances w) →
            (instances w ++ [o]) !! l = instances w !! l).
  { intros l Hl. by apply lookup_app_l. }
  assert (Hdicts : ∀ r0, r0 < length (dicts w) → dicts w1 !! r0 = dicts w !! r0).
  { intros r0 Hr0. rewrite Hds. by apply lookup_app_l. }
  assert (Hnew : (instances w ++ [o]) !! length (instances w) = Some o)
    by apply list_lookup_middle, eq_refl.
  destruct (known_keys overrides).
  2:{ rewrite Hins. repeat split; try done. }
  assert (Hplain : let w' := mkWorld (instances w ++ [o]) (dicts w1) (trace w) in
    instances w' !! default_options cls = instances w !! default_options cls ∧
    (∀ l, l < length (instances w) → instances w' !! l = instances w !! l) ∧
    (∀ r0, r0 < length (dicts w) → dicts w' !! r0 = dicts w !! r0) ∧
    ∀ l, Ok (length (instances w)) = Ok l →
      l = length (instances w) ∧ l ≠ default_options cls ∧
      ∃ o, instances w' !! l = Some o ∧
        ∀ k r0, ActorOptions.getattr o k = Some (VDict r0) →
          overrides !! k = Some (VDict r0) ∨ length (dicts w) ≤ r0).
  { cbn. split; [auto|]. split; [auto|]. split; [auto|].
    intros l [= <-]. split; [done|]. split; [lia|]. by exists o. }
  destruct (placement_group_spec cls) as [spec|]; [|done].
  destruct (is_None (merged_placement_group w cls overrides)); [|done].
  clear Hplain.
  match goal with |- context [create_placement_group B spec ?w2] =>
    pose proof (create_placement_group_frame B spec w2) as Hframe;
    destruct (create_placement_group B spec w2) as [[pg|e] w3]
  end; cbn [fst snd trace instances dicts] in *;
    destruct Hframe as (Hins3 & Hds3 & _); rewrite Hins3, Hds3.
  - split; [rewrite list_lookup_alter_ne by lia; auto|].
    split; [intros l Hl; rewrite list_lookup_alter_ne by lia; auto|].
    split; [auto|].
    intros l [= <-]. split; [done|]. split; [lia|].
    exists (ActorOptions.set_placement_group (VHandle pg) o).
    split; [by rewrite list_lookup_alter_eq, Hnew|].
    intros k r0 Hget%getattr_set_placement_group_dict. auto.
  - split; [auto|]. split; [auto|]. split; [auto|]. intros l; discriminate.
Qed.

Lemma options_preserves_defaults_witness :
  let '(r, w') := BaseActor.options (ray_ready 7) TaggedActor ∅ loaded_tagged in
  instances w' !! default_options TaggedActor
  = instances loaded_tagged !! default_options TaggedActor ∧
  (∀ l, l < length (instances loaded_tagged) →
        instances w' !! l = instances loaded_tagged !! l) ∧
  (∀ r0, r0 < length (dicts loaded_tagged) →
         dicts w' !! r0 = dicts loaded_tagged !! r0) ∧
  ∀ l, r = Ok l →
    l = length (instances loaded_tagged) ∧ l ≠ default_options TaggedActor ∧
    ∃ o, instances w' !! l = Some o ∧
      ∀ k r0, ActorOptions.getattr o k = Some (VDict r0) →
        (∅ : gmap string pyval) !! k = Some (VDict r0) ∨
        length (dicts loaded_tagged) ≤ r0.
Proof.
  apply (options_preserves_defaults (ray_ready 7) TaggedActor ∅ loaded_tagged).
  simpl. lia.
Defined.

(** ** [ActorOptions.to_kwargs] *)

Ltac case_is_None :=
  repeat match goal with
         | |- context [is_None ?v] => destruct (is_None v)
         end.

(** C10: for an instance whose [resources] is [None] or a mapping,
    [to_kwargs] returns a dict that always has [num_cpus] and [num_gpus];
    has [max_concurrency], [name], [namespace], [lifetime] and
    [placement_group] exactly when the field is not [None]; and has
    [resources] only when the mapping is not empty, as a new dict with the
    same entries.  There is no other key. *)
Theorem to_kwargs_keys self w :
  let o := instances w !!! self in
  resources_typed o = true →
  ∃ kw w', ActorOptions_to_kwargs self w = (Ok kw, w') ∧
    instances w' = instances w ∧ trace w' = trace w ∧
    kw !! "num_cpus" = Some (ActorOptions.num_cpus o) ∧
    kw !! "num_gpus" = Some (ActorOptions.num_gpus o) ∧
    kw !! "max_concurrency"
    = (if is_None (ActorOptions.max_concurrency o) then None
       else Some (ActorOptions.max_concurrency o)) ∧
    kw !! "name"
    = (if is_None (ActorOptions.name o) then None else Some (ActorOptions.name o)) ∧
    kw !! "namespace"
    = (if is_None (ActorOptions.namespace o) then None
       else Some (ActorOptions.namespace o)) ∧
    kw !! "lifetime"
    = (if is_None (ActorOptions.lifetime o) then None
       else Some (ActorOptions.lifetime o)) ∧
    kw !! "placement_group"
    = (if is_None (ActorOptions.placement_group o) then None
       else Some (ActorOptions.placement_group o)) ∧
    match ActorOptions.resources o with
    | VDict r =>
        if Nat.eqb (size (dicts w !!! r)) 0
        then kw !! "resources" = None ∧ dicts w' = dicts w
        else kw !! "resources" = Some (VDict (length (dicts w))) ∧
             dicts w' = dicts w ++ [dicts w !!! r]
    | _ => kw !! "resources" = None ∧ dicts w' = dicts w
    end ∧
    ∀ k, is_Some (kw !! k) → k ∈ ActorOptions.field_names.
Proof.
  intros o Htyped. unfold ActorOptions_to_kwargs, resources_typed in *.
  unfold mbind, M_bind at 1. cbn [read_instance]. fold o.
  assert (Hkeys : ∀ (kw : gmap string pyval) k0 v0,
            k0 ∈ ActorOptions.field_names →
            (∀ k, is_Some (kw !! k) → k ∈ ActorOptions.field_names) →
            ∀ k, is_Some (<[k0 := v0]> kw !! k) → k ∈ ActorOptions.field_names).
  { intros kw k0 v0 Hk0 Hkw k. destruct (decide (k0 = k)) as [<-|Hne]; [done|].
    rewrite lookup_insert_ne by done. apply Hkw. }
  assert (Hfield : ∀ k0, bool_decide (k0 ∈ ActorOptions.field_names) = true →
                         k0 ∈ ActorOptions.field_names)
    by (intros k0; apply bool_decide_eq_true).
  destruct (ActorOptions.resources o) as [| | | |r|] eqn:Hres; try discriminate.
  - run. eexists _, w. split; [reflexivity|].
    case_is_None; (do 9 (split; [by vm_compute|])); (split; [done|]);
      repeat (apply Hkeys; [by apply Hfield|]);
      intros k [? Hk]; by rewrite lookup_empty in Hk.
  - cbn [truthy dict_copy]. run.
    destruct (Nat.eqb (size (dicts w !!! r)) 0) eqn:Hsize; cbn [truthy dict_copy]; run.
    + eexists _, w. split; [reflexivity|].
      case_is_None; (do 9 (split; [by vm_compute|])); (split; [done|]);
        repeat (apply Hkeys; [by apply Hfield|]);
        intros k [? Hk]; by rewrite lookup_empty in Hk.
    + eexists _, _. split; [reflexivity|]. cbn [instances dicts trace].
      case_is_None; (do 9 (split; [by vm_compute|])); (split; [done|]);
        repeat (apply Hkeys; [by apply Hfield|]);
        intros k [? Hk]; by rewrite lookup_empty in Hk.
Qed.

Lemma to_kwargs_keys_witness :
  let o := instances loaded_tagged !!! 0 in
  ∃ kw w', ActorOptions_to_kwargs 0 loaded_tagged = (Ok kw, w') ∧
    instances w' = instances loaded_tagged ∧ trace w' = trace loaded_tagged ∧
    kw !! "num_cpus" = Some (ActorOptions.num_cpus o) ∧
    kw !! "num_gpus" = Some (ActorOptions.num_gpus o) ∧
    kw !! "max_concurrency"
    = (if is_None (ActorOptions.max_concurrency o) then None
       else Some (ActorOptions.max_concurrency o)) ∧
    kw !! "name"
    = (if is_None (ActorOptions.name o) then None else Some (ActorOptions.name o)) ∧
    kw !! "namespace"
    = (if is_None (ActorOptions.namespace o) then None
       else Some (ActorOptions.namespace o)) ∧
    kw !! "lifetime"
    = (if is_None (ActorOptions.lifetime o) then None
       else Some (ActorOptions.lifetime o)) ∧
    kw !! "placement_group"
    = (if is_None (ActorOptions.placement_group o) then None
       else Some (ActorOptions.placement_group o)) ∧
    match ActorOptions.resources o with
    | VDict r =>
        if Nat.eqb (size (dicts loaded_tagged !!! r)) 0
        then kw !! "resources" = None ∧ dicts w' = dicts loaded_tagged
        else kw !! "resources" = Some (VDict (length (dicts loaded_tagged))) ∧
             dicts w' = dicts loaded_tagged ++ [dicts loaded_tagged !!! r]
    | _ => kw !! "resources" = None ∧ dicts w' = dicts loaded_tagged
    end ∧
    ∀ k, is_Some (kw !! k) → k ∈ ActorOptions.field_names.
Proof. apply (to_kwargs_keys 0 loaded_tagged). reflexivity. Defined.

(** ** The test suite and the scenarios of the specification *)

(** [test_actor_options_merges_defaults]. *)
Example test_actor_options_merges_defaults :
  ∃ l w' opts,
    BaseActor.options (ray_ready 7) ExampleActor {["num_cpus" := VInt 2]} loaded
    = (Ok l, w') ∧
    instances w' !! l = Some opts ∧
    ActorOptions.num_cpus opts = VInt 2 ∧
    ActorOptions.num_gpus opts = VFloat 0.25%float ∧
    ActorOptions.resources opts = VNone.
Proof. eexists _, _, _. split; [by vm_compute|]. by repeat split. Qed.

(** [test_actor_options_creates_placement_group], with Ray granting the
    handle [7]. *)
Example test_actor_options_creates_placement_group :
  ∃ l w' opts,
    BaseActor.options (ray_ready 7) ExampleActorWithPlacement ∅ loaded = (Ok l, w') ∧
    instances w' !! l = Some opts ∧
    ActorOptions.placement_group opts = VHandle 7 ∧
    reserve_calls (trace w') = [gpu_spec] ∧ release_calls (trace w') = [].
Proof. eexists _, _, _. split; [by vm_compute|]. by repeat split. Qed.

(** [test_missing_ray_dependency_error]. *)
Example test_missing_ray_dependency_error :
  BaseActor.as_remote no_ray BaseActor_class ∅ loaded
  = (Raise RayDependencyError, loaded).
Proof. reflexivity. Qed.

(** A reservation that becomes ready: the handle is returned and no
    removal is asked for. *)
Example reserve_ready :
  ∃ w', create_placement_group (ray_ready 7) gpu_spec loaded = (Ok 7, w') ∧
        release_calls (trace w') = [].
Proof. eexists. split; [by vm_compute|]. reflexivity. Qed.

(** A reservation that never becomes ready, with a removal that works:
    [PlacementFailure] with the timeout of the spec, after one removal. *)
Example reserve_never_ready :
  ∃ w', create_placement_group (ray_never_ready 7) gpu_spec loaded
        = (Raise (PlacementFailure 30.0%float), w') ∧
        release_calls (trace w') = [7].
Proof. eexists. split; [by vm_compute|]. reflexivity. Qed.

(** A remote class built with a reserved placement group: the keywords
    handed to [ray.remote] carry the handle. *)
Example as_remote_with_placement :
  ∃ w' kw, BaseActor.as_remote (ray_ready 7) ExampleActorWithPlacement ∅ loaded
           = (Ok 0, w') ∧
           last (trace w') = Some (Call_remote kw) ∧
           kw !! "placement_group" = Some (VHandle 7) ∧
           kw !! "resources" = None.
Proof. eexists _, _. split; [by vm_compute|]. by repeat split. Qed.

(** Resolving against defaults that name a resource copies the mapping:
    the result refers to a new dict with the same entries. *)
Example options_copies_resources :
  ∃ l w' opts,
    BaseActor.options (ray_ready 7) TaggedActor ∅ loaded_tagged = (Ok l, w') ∧
    instances w' !! l = Some opts ∧
    ActorOptions.resources opts = VDict 2 ∧
    dicts w' !! 2 = dicts loaded_tagged !! 0.
Proof. eexists _, _, _. split; [by vm_compute|]. by repeat split. Qed.

(** An empty resource mapping is left out of the keywords. *)
Example to_kwargs_drops_empty_resources :
  ∃ kw, ActorOptions_to_kwargs 1 loaded_tagged = (Ok kw, loaded_tagged) ∧
        kw !! "resources" = None ∧ kw !! "name" = Some (VStr "a").
Proof. eexists. split; [by vm_compute|]. by split. Qed.

(** * Further properties of the module *)

Lemma remote_calls_app tr1 tr2 :
  remote_calls (tr1 ++ tr2) = remote_calls tr1 ++ remote_calls tr2.
Proof. apply omap_app. Qed.

(** ** Outcomes of [create_placement_group] *)

(** What a returned handle tells. *)
Lemma create_placement_group_ok_inv B spec w pg w' :
  create_placement_group B spec w = (Ok pg, w') →
  let kw := PlacementGroupSpec.to_kwargs spec in
  let t := PlacementGroupSpec.timeout_s spec in
  let h1 := trace w ++ [Call_create_placement_group spec] in
  let h2 := h1 ++ [Call_placement_group kw] in
  ray B = true ∧ placement_group B h1 kw = Ok pg ∧ wait B h2 pg t = Ok true ∧
  w' = mkWorld (instances w) (dicts w)
         (h2 ++ [Call_wait pg t; Log_debug (Created_placement_group pg spec)]).
Proof.
  intros Hrun kw t h1 h2. subst kw t h1 h2. revert Hrun.
  unfold create_placement_group, _require_ray. run.
  destruct (ray B); run; [|discriminate].
  destruct (placement_group B _ _) as [pg0|e] eqn:Hpg; run; [|discriminate].
  destruct (wait B _ _ _) as [[|]|e] eqn:Hwait; run;
    [|by destruct (remove_placement_group B _ _) as [[]|?]|discriminate].
  intros [= <- <-]. repeat split; try done. f_equal.
  by rewrite <- (assoc_L (++) _ [Call_wait _ _]).
Qed.

(** A handle is returned only for a reservation Ray reported ready: Ray
    was available, the handle is the one Ray issued for the bundles and
    the strategy of the spec, and the wait with the timeout of the spec
    found it ready.  No removal was asked for, nothing was logged as a
    warning, and the store is untouched. *)
Theorem create_placement_group_returns_ready B spec w pg w' :
  create_placement_group B spec w = (Ok pg, w') →
  let kw := PlacementGroupSpec.to_kwargs spec in
  let t := PlacementGroupSpec.timeout_s spec in
  let h1 := trace w ++ [Call_create_placement_group spec] in
  let h2 := h1 ++ [Call_placement_group kw] in
  ray B = true ∧ placement_group B h1 kw = Ok pg ∧ wait B h2 pg t = Ok true ∧
  trace w' = h2 ++ [Call_wait pg t; Log_debug (Created_placement_group pg spec)] ∧
  release_calls (trace w') = release_calls (trace w) ∧
  warnings (trace w') = warnings (trace w) ∧
  instances w' = instances w ∧ dicts w' = dicts w.
Proof.
  intros Hrun. destruct (create_placement_group_ok_inv _ _ _ _ _ Hrun)
    as (HB & Hpg & Hwait & ->).
  cbn [trace instances dicts]. repeat split; try done.
  - unfold release_calls. rewrite !omap_app. simpl. by rewrite !app_nil_r.
  - unfold warnings. rewrite !omap_app. simpl. by rewrite !app_nil_r.
Qed.

Lemma create_placement_group_returns_ready_witness :
  let kw := PlacementGroupSpec.to_kwargs gpu_spec in
  let t := PlacementGroupSpec.timeout_s gpu_spec in
  let w' := snd (create_placement_group (ray_ready 7) gpu_spec loaded) in
  let h1 := trace loaded ++ [Call_create_placement_group gpu_spec] in
  let h2 := h1 ++ [Call_placement_group kw] in
  ray (ray_ready 7) = true ∧ placement_group (ray_ready 7) h1 kw = Ok 7 ∧
  wait (ray_ready 7) h2 7 t = Ok true ∧
  trace w' = h2 ++ [Call_wait 7 t; Log_debug (Created_placement_group 7 gpu_spec)] ∧
  release_calls (trace w') = release_calls (trace loaded) ∧
  warnings (trace w') = warnings (trace loaded) ∧
  instances w' = instances loaded ∧ dicts w' = dicts loaded.
Proof.
  apply (create_placement_group_returns_ready (ray_ready 7) gpu_spec loaded 7).
  reflexivity.
Defined.

(** The exceptions that leave [create_placement_group]: the module's own
    [RayDependencyError], exactly when Ray is missing; its own
    [PlacementFailure] carrying the timeout of the spec; or an exception
    that one of the three calls into Ray raised.  Nothing else, and the
    store is untouched. *)
Theorem create_placement_group_raises B spec w e w' :
  create_placement_group B spec w = (Raise e, w') →
  instances w' = instances w ∧ dicts w' = dicts w ∧
  ((ray B = false ∧ e = RayDependencyError) ∨
   (ray B = true ∧
    (e = PlacementFailure (PlacementGroupSpec.timeout_s spec) ∨
     (∃ h kw, placement_group B h kw = Raise e) ∨
     (∃ h pg t, wait B h pg t = Raise e) ∨
     (∃ h pg, remove_placement_group B h pg = Raise e)))).
Proof.
  unfold create_placement_group, _require_ray. run.
  destruct (ray B); run; [|intros [= <- <-]; by auto].
  destruct (placement_group B _ _) as [pg|e0] eqn:Hpg; run;
    [|intros [= <- <-]; repeat split; try done; right; split; [done|]; eauto 6].
  destruct (wait B _ _ _) as [[|]|e0] eqn:Hwait; run;
    [discriminate| |intros [= <- <-]; repeat split; try done; right; split; [done|]; eauto 8].
  destruct (remove_placement_group B _ _) as [[]|e0] eqn:Hrm;
    intros [= <- <-]; repeat split; try done; right; (split; [done|]); eauto 8.
Qed.

Lemma create_placement_group_raises_witness :
  let w' := snd (create_placement_group (ray_wait_fails 7) gpu_spec loaded) in
  let e := RayError "RaySystemError" in
  let B := ray_wait_fails 7 in
  instances w' = instances loaded ∧ dicts w' = dicts loaded ∧
  ((ray B = false ∧ e = RayDependencyError) ∨
   (ray B = true ∧
    (e = PlacementFailure (PlacementGroupSpec.timeout_s gpu_spec) ∨
     (∃ h kw, placement_group B h kw = Raise e) ∨
     (∃ h pg t, wait B h pg t = Raise e) ∨
     (∃ h pg, remove_placement_group B h pg = Raise e)))).
Proof.
  apply (create_placement_group_raises (ray_wait_fails 7) gpu_spec loaded
           (RayError "RaySystemError")).
  reflexivity.
Defined.

(** The removals [create_placement_group] asks for: one, of the handle
    just issued, when the wait came back with nothing ready; none in every
    other case.  In particular a reservation whose wait raises is left in
    place. *)
Theorem create_placement_group_releases B spec w :
  let kw := PlacementGroupSpec.to_kwargs spec in
  let t := PlacementGroupSpec.timeout_s spec in
  let h1 := trace w ++ [Call_create_placement_group spec] in
  let h2 := h1 ++ [Call_placement_group kw] in
  release_calls (trace (snd (create_placement_group B spec w)))
  = release_calls (trace w) ++
    (if ray B then
       match placement_group B h1 kw with
       | Ok pg => match wait B h2 pg t with
                  | Ok false => [pg]
                  | _ => []
                  end
       | Raise _ => []
       end
     else []).
Proof.
  cbv zeta. unfold create_placement_group, _require_ray. run.
  destruct (ray B); run;
    [destruct (placement_group B _ _) as [pg|e]; run;
     [destruct (wait B _ _ _) as [[|]|e]; run;
      [|destruct (remove_placement_group B _ _) as [[]|e]; run|]|]|];
    rewrite <- ?(assoc_L (++)), !release_calls_app; simpl;
    by rewrite ?app_nil_r.
Qed.

(** [create_placement_group] never retries.  After its entry it submits
    once if Ray is there; it waits once, on the handle issued, only if the
    submission returned; and only if the wait returned does it do one more
    thing: record the debug message when the group was found ready, ask
    for one removal of the handle when it was not.  Nothing else is
    recorded. *)
Theorem create_placement_group_no_retry B spec w :
  let kw := PlacementGroupSpec.to_kwargs spec in
  let t := PlacementGroupSpec.timeout_s spec in
  let h1 := trace w ++ [Call_create_placement_group spec] in
  let h2 := h1 ++ [Call_placement_group kw] in
  trace (snd (create_placement_group B spec w))
  = h1 ++
    (if ray B then
       Call_placement_group kw ::
       match placement_group B h1 kw with
       | Ok pg =>
           Call_wait pg t ::
           match wait B h2 pg t with
           | Ok true => [Log_debug (Created_placement_group pg spec)]
           | Ok false => [Call_remove_placement_group pg]
           | Raise _ => []
           end
       | Raise _ => []
       end
     else []).
Proof.
  cbv zeta. unfold create_placement_group, _require_ray. run.
  destruct (ray B); run; [|by rewrite app_nil_r].
  destruct (placement_group B _ _) as [pg|e]; run; [|done].
  destruct (wait B _ _ _) as [[|]|e]; run;
    [|destruct (remove_placement_group B _ _) as [[]|e]; run|];
    by rewrite <- !(assoc_L (++)).
Qed.

(** ** Reserve, then release *)

(** A handle that [create_placement_group] returns can be handed to
    [remove_placement_group_safe]: the pair raises what the reservation
    raises and, after a successful reservation, Ray has been asked once to
    remove exactly the handle reserved.  The pair then returns, unless that
    removal raised something that is no instance of [Exception], which
    reaches the caller. *)
Theorem reserve_then_release_composes B spec w :
  let '(r, w') := (pg ← create_placement_group B spec;
                   remove_placement_group_safe B (Some pg)) w in
  match create_placement_group B spec w with
  | (Ok pg, w1) =>
      release_calls (trace w') = release_calls (trace w) ++ [pg] ∧
      match remove_placement_group B (trace w1) pg with
      | Ok _ => r = Ok ()
      | Raise e => r = if is_Exception e then Ok () else Raise e
      end
  | (Raise e, _) => r = Raise e
  end.
Proof.
  unfold mbind, M_bind at 1.
  destruct (create_placement_group B spec w) as [[pg|e] w1] eqn:Hrun; [|done].
  apply create_placement_group_ok_inv in Hrun as (_ & _ & _ & ->).
  unfold remove_placement_group_safe. run.
  destruct (remove_placement_group B _ pg) as [[]|e]; run;
    [|destruct (is_Exception e)]; cbn [trace];
    (split; [|done]);
    rewrite !release_calls_app; simpl;
    by rewrite !app_nil_r.
Qed.

(** ** What a returned option set is made of *)

Lemma options_returns B cls overrides w l w' :
  BaseActor.options B cls overrides w = (Ok l, w') →
  ∃ d w1 o,
    asdict (default_options cls) w = (Ok d, w1) ∧
    instances w1 = instances w ∧ trace w1 = trace w ∧
    (∃ ds, dicts w1 = dicts w ++ ds) ∧
    (∀ k, match ActorOptions.getattr (instances w !!! default_options cls) k with
          | None => d !! k = None
          | Some v =>
              ∃ v', d !! k = Some v' ∧ is_None v' = is_None v ∧
                    same_or_fresh w v v' ∧
                    (live w v = true → copy_of w w1 v v')
          end) ∧
    known_keys overrides = true ∧ l = length (instances w) ∧
    instances w' = instances w ++ [o] ∧ dicts w' = dicts w1 ∧
    let o0 := ActorOptions.of_kwargs (overrides ∪ d) in
    ((o = o0 ∧ trace w' = trace w ∧
      (placement_group_spec cls = None ∨
       is_None (ActorOptions.placement_group o0) = false)) ∨
     (∃ spec pg w3,
        placement_group_spec cls = Some spec ∧
        is_None (ActorOptions.placement_group o0) = true ∧
        o = ActorOptions.set_placement_group (VHandle pg) o0 ∧
        create_placement_group B spec
          (mkWorld (instances w ++ [o0]) (dicts w1) (trace w)) = (Ok pg, w3) ∧
        trace w' = trace w3)).
Proof.
  destruct (options_run B cls overrides w)
    as (d & w1 & Hasdict & Hins & Htr & Hds & Hd & Hrun).
  cbv zeta in Hrun. rewrite Hrun. clear Hrun.
  destruct (known_keys overrides); [|discriminate].
  set (o0 := ActorOptions.of_kwargs (overrides ∪ d)).
  destruct (placement_group_spec cls) as [spec|] eqn:Hspec.
  2:{ intros [= <- <-]. exists d, w1, o0. do 7 (split; [done|]).
      split; [done|]. split; [done|]. left. auto. }
  destruct (is_None (ActorOptions.placement_group o0)) eqn:Hnone.
  2:{ intros [= <- <-]. exists d, w1, o0. do 7 (split; [done|]).
      split; [done|]. split; [done|]. left. auto. }
  destruct (create_placement_group B spec _) as [[pg|e] w3] eqn:Hcpg; [|discriminate].
  intros [= <- <-].
  destruct (create_placement_group_ok_inv _ _ _ _ _ Hcpg) as (_ & _ & _ & Hw3).
  cbn [instances dicts trace] in Hw3.
  exists d, w1, (ActorOptions.set_placement_group (VHandle pg) o0).
  do 7 (split; [done|]). cbn [instances dicts trace].
  split. { rewrite Hw3. cbn [instances]. rewrite alter_app_r_alt by done.
           by rewrite Nat.sub_diag. }
  split; [by rewrite Hw3|].
  right. exists spec, pg, w3. done.
Qed.

Lemma live_fields_later w w1 o ds :
  dicts w1 = dicts w ++ ds → live_fields w o = true → live_fields w1 o = true.
Proof.
  intros Hds. unfold live_fields. rewrite !forallb_forall.
  intros H v Hv. eapply live_later; eauto.
Qed.

(** ** Resolution without a reservation needs no Ray *)

(** When the class declares no spec, or the merged [placement_group] is
    not [None], [BaseActor.options] does not depend on Ray at all: it gives
    the same outcome in the same world whatever the backend, available or
    not, and records nothing in the trace. *)
Theorem options_without_reservation B B' cls overrides w :
  placement_group_spec cls = None ∨
  is_None (merged_placement_group w cls overrides) = false →
  BaseActor.options B cls overrides w = BaseActor.options B' cls overrides w ∧
  trace (snd (BaseActor.options B cls overrides w)) = trace w.
Proof.
  intros Hfree.
  destruct (options_run B cls overrides w)
    as (d & w1 & Ha & _ & Htr & _ & Hd & Hrun).
  destruct (options_run B' cls overrides w) as (d' & w1' & Ha' & _ & _ & _ & _ & Hrun').
  rewrite Ha in Ha'. injection Ha' as <- <-.
  cbv zeta in Hrun, Hrun'. rewrite Hrun, Hrun'. clear Hrun Hrun'.
  assert (Hpg : is_None (ActorOptions.placement_group
                           (ActorOptions.of_kwargs (overrides ∪ d)))
                = is_None (merged_placement_group w cls overrides)).
  { generalize (Hd "placement_group"). cbn.
    intros (v' & ? & ? & _). by eapply placement_group_merged. }
  rewrite Hpg. destruct (known_keys overrides); [|done].
  destruct Hfree as [->| ->]; [done|].
  by destruct (placement_group_spec cls).
Qed.

Lemma options_without_reservation_witness :
  BaseActor.options no_ray ExampleActor {["num_cpus" := VInt 2]} loaded
  = BaseActor.options (ray_ready 7) ExampleActor {["num_cpus" := VInt 2]} loaded ∧
  trace (snd (BaseActor.options no_ray ExampleActor {["num_cpus" := VInt 2]} loaded))
  = trace loaded.
Proof.
  apply (options_without_reservation no_ray (ray_ready 7) ExampleActor).
  left. reflexivity.
Defined.

(** ** Resolving twice *)

(** Two calls of [BaseActor.options] in a row with the same overrides
    return two distinct instances whose fields agree: each field holds the
    same value in both, or two distinct dicts with the same entries.
    [placement_group] is included when the class declares no spec; with a
    spec each call may reserve its own group. *)
Theorem options_twice B cls overrides w o_def l1 w1 l2 w2 :
  instances w !! default_options cls = Some o_def →
  live_fields w o_def = true →
  BaseActor.options B cls overrides w = (Ok l1, w1) →
  BaseActor.options B cls overrides w1 = (Ok l2, w2) →
  l2 = S l1 ∧
  ∃ o1 o2, instances w2 !! l1 = Some o1 ∧ instances w2 !! l2 = Some o2 ∧
    ∀ k, k ∈ ActorOptions.field_names →
         (k = "placement_group" → placement_group_spec cls = None) →
         ∃ v1 v2, ActorOptions.getattr o1 k = Some v1 ∧
                  ActorOptions.getattr o2 k = Some v2 ∧
                  same_value w2 v1 v2.
Proof.
  intros Hdef Hlive Hrun1 Hrun2.
  destruct (options_returns _ _ _ _ _ _ Hrun1)
    as (d1 & wa & o1 & _ & _ & _ & [dsa Hdsa] & Hd1 & _ & -> & Hins1 & Hdicts1 & Ho1).
  destruct (options_returns _ _ _ _ _ _ Hrun2)
    as (d2 & wb & o2 & _ & _ & _ & [dsb Hdsb] & Hd2 & _ & -> & Hins2 & Hdicts2 & Ho2).
  assert (Hdef1 : instances w1 !! default_options cls = Some o_def).
  { rewrite Hins1. by apply lookup_app_l_Some. }
  rewrite (list_lookup_total_correct _ _ _ Hdef) in Hd1.
  rewrite (list_lookup_total_correct _ _ _ Hdef1) in Hd2.
  assert (Hlive1 : live_fields w1 o_def = true).
  { eapply live_fields_later; [|done]. by rewrite Hdicts1. }
  split; [rewrite Hins1, length_app; simpl; lia|].
  exists o1, o2. split.
  { rewrite Hins2, Hins1. apply lookup_app_l_Some, list_lookup_middle. done. }
  split; [by rewrite Hins2, list_lookup_middle|].
  intros k Hk Hpg.
  assert (Hget : ∀ (d : gmap string pyval) o w0,
            (let o0 := ActorOptions.of_kwargs (overrides ∪ d) in
             (o = o0 ∧ trace w0 = trace w0 ∧ True) ∨
             (∃ pg, placement_group_spec cls ≠ None ∧
                    o = ActorOptions.set_placement_group (VHandle pg) o0)) →
            ActorOptions.getattr o k
            = ActorOptions.getattr (ActorOptions.of_kwargs (overrides ∪ d)) k).
  { intros d o _ [(-> & _)|(pg & Hspec & ->)]; [done|].
    apply getattr_set_placement_group. intros ->. by apply Hspec, Hpg. }
  rewrite (Hget d1 o1 w), (Hget d2 o2 w); first last.
  { cbv zeta in Ho1. destruct Ho1 as [(-> & _)|(spec & pg & w3 & Hs & _ & -> & _)];
      [by left|right; exists pg; split; [congruence|done]]. }
  { cbv zeta in Ho2. destruct Ho2 as [(-> & _)|(spec & pg & w3 & Hs & _ & -> & _)];
      [by left|right; exists pg; split; [congruence|done]]. }
  clear Hget Ho1 Ho2.
  destruct (overrides !! k) as [v|] eqn:Hov.
  { exists v, v. split; [|split; [|by left]];
      apply getattr_of_kwargs; try done; by apply lookup_union_Some_l. }
  destruct (field_getattr o_def k Hk) as [v Hv].
  generalize (Hd1 k), (Hd2 k). rewrite Hv.
  intros (v1 & Hk1 & _ & _ & Hcp1) (v2 & Hk2 & _ & _ & Hcp2).
  exists v1, v2.
  split; [apply getattr_of_kwargs; [done|by rewrite lookup_union_r]|].
  split; [apply getattr_of_kwargs; [done|by rewrite lookup_union_r]|].
  specialize (Hcp1 (live_fields_getattr _ _ _ _ Hlive Hv)).
  specialize (Hcp2 (live_fields_getattr _ _ _ _ Hlive1 Hv)).
  destruct v as [| | | |r|]; simpl in Hcp1, Hcp2; try (left; congruence).
  destruct Hcp1 as (r1 & dd & -> & Hr1 & Hr & Hdd).
  destruct Hcp2 as (r2 & dd' & -> & Hr2 & Hr' & Hdd').
  rewrite Hdicts1, Hdsa in Hr'. rewrite (lookup_app_l_Some _ _ _ _ Hr) in Hr'.
  injection Hr' as <-.
  right. exists r1, r2, dd. split; [done|]. split; [done|].
  apply lookup_lt_Some in Hdd as Hlt. rewrite Hdicts1 in Hr2.
  split; [lia|]. rewrite Hdicts2. split; [|done].
  rewrite Hdsb, Hdicts1. by apply lookup_app_l_Some.
Qed.

Lemma options_twice_witness :
  let B := ray_ready 7 in
  let w1 := snd (BaseActor.options B TaggedActor ∅ loaded_tagged) in
  let w2 := snd (BaseActor.options B TaggedActor ∅ w1) in
  3 = S 2 ∧
  ∃ o1 o2, instances w2 !! 2 = Some o1 ∧ instances w2 !! 3 = Some o2 ∧
    ∀ k, k ∈ ActorOptions.field_names →
         (k = "placement_group" → placement_group_spec TaggedActor = None) →
         ∃ v1 v2, ActorOptions.getattr o1 k = Some v1 ∧
                  ActorOptions.getattr o2 k = Some v2 ∧
                  same_value w2 v1 v2.
Proof.
  intros B w1 w2.
  apply (options_twice B TaggedActor ∅ loaded_tagged
           (ActorOptions.of_kwargs
              (<["resources" := VDict 0]> {["num_cpus" := VFloat 0.5%float]}))
           2 w1 3 w2); reflexivity.
Defined.

(** ** [ActorOptions.to_kwargs] on any instance *)

Lemma to_kwargs_shape self w :
  let o := instances w !!! self in
  match ActorOptions_to_kwargs self w with
  | (Ok kw, w') =>
      instances w' = instances w ∧ trace w' = trace w ∧
      (dicts w' = dicts w ∧ kw !! "resources" = None ∨
       ∃ d, dicts w' = dicts w ++ [d] ∧
            kw !! "resources" = Some (VDict (length (dicts w)))) ∧
      kw !! "num_cpus" = Some (ActorOptions.num_cpus o) ∧
      kw !! "num_gpus" = Some (ActorOptions.num_gpus o) ∧
      kw !! "max_concurrency"
      = (if is_None (ActorOptions.max_concurrency o) then None
         else Some (ActorOptions.max_concurrency o)) ∧
      kw !! "name"
      = (if is_None (ActorOptions.name o) then None else Some (ActorOptions.name o)) ∧
      kw !! "namespace"
      = (if is_None (ActorOptions.namespace o) then None
         else Some (ActorOptions.namespace o)) ∧
      kw !! "lifetime"
      = (if is_None (ActorOptions.lifetime o) then None
         else Some (ActorOptions.lifetime o)) ∧
      kw !! "placement_group"
      = (if is_None (ActorOptions.placement_group o) then None
         else Some (ActorOptions.placement_group o))
  | (Raise e, w') => w' = w ∧ (e = TypeError ∨ e = ValueError)
  end.
Proof.
  intros o. unfold ActorOptions_to_kwargs.
  unfold mbind, M_bind at 1. cbn [read_instance]. fold o.
  destruct (ActorOptions.resources o) as [|x|n|s|r|pg] eqn:Hres;
    cbn [truthy dict_copy]; run.
  - do 2 (split; [done|]). split; [left; split; [done|]; case_is_None; by vm_compute|].
    case_is_None; (do 6 (split; [by vm_compute|])); by vm_compute.
  - destruct (PrimFloat.eqb x 0); run; [|by auto].
    do 2 (split; [done|]). split; [left; split; [done|]; case_is_None; by vm_compute|].
    case_is_None; (do 6 (split; [by vm_compute|])); by vm_compute.
  - destruct (n =? 0)%Z; run; [|by auto].
    do 2 (split; [done|]). split; [left; split; [done|]; case_is_None; by vm_compute|].
    case_is_None; (do 6 (split; [by vm_compute|])); by vm_compute.
  - destruct (String.eqb s ""); run; [|by auto].
    do 2 (split; [done|]). split; [left; split; [done|]; case_is_None; by vm_compute|].
    case_is_None; (do 6 (split; [by vm_compute|])); by vm_compute.
  - destruct (Nat.eqb (size (dicts w !!! r)) 0); run.
    + do 2 (split; [done|]). split; [left; split; [done|]; case_is_None; by vm_compute|].
      case_is_None; (do 6 (split; [by vm_compute|])); by vm_compute.
    + do 2 (split; [done|]).
      split; [right; eexists; split; [done|]; case_is_None; by vm_compute|].
      case_is_None; (do 6 (split; [by vm_compute|])); by vm_compute.
  - by auto.
Qed.

(** [to_kwargs] reads and never writes: it leaves every instance, every
    dict that existed and the trace as they were.  The one thing it may add
    to the store is the dict its [resources] entry refers to, a new object
    that no option set refers to.  When it raises, the world is as
    before. *)
Theorem to_kwargs_frame self w :
  let '(r, w') := ActorOptions_to_kwargs self w in
  instances w' = instances w ∧ trace w' = trace w ∧
  (∀ r0, r0 < length (dicts w) → dicts w' !! r0 = dicts w !! r0) ∧
  match r with
  | Ok kw => ∀ v, kw !! "resources" = Some v →
                  v = VDict (length (dicts w)) ∧
                  length (dicts w') = S (length (dicts w))
  | Raise _ => w' = w
  end.
Proof.
  pose proof (to_kwargs_shape self w) as H. cbv zeta in H.
  destruct (ActorOptions_to_kwargs self w) as [[kw|e] w']; [|by destruct H as [-> _]].
  destruct H as (Hins & Htr & Hres & _).
  split; [done|]. split; [done|].
  destruct Hres as [[-> Hnone]|(d & -> & Hsome)].
  - split; [done|]. intros v. by rewrite Hnone.
  - split; [intros r0 Hr0; by apply lookup_app_l|].
    intros v. rewrite Hsome. intros [= <-]. split; [done|].
    rewrite length_app. simpl. lia.
Qed.

(** [resources] holding a number or a string instead of a mapping: a zero
    or an empty string is dropped without an error, like an empty mapping;
    a non-zero number makes [to_kwargs] raise [TypeError] and a non-empty
    string [ValueError], out of [dict(self.resources)], leaving the world as
    it was. *)
Theorem to_kwargs_scalar_resources self w :
  let o := instances w !!! self in
  let '(r, w') := ActorOptions_to_kwargs self w in
  let dropped := w' = w ∧ ∃ kw, r = Ok kw ∧ kw !! "resources" = None in
  match ActorOptions.resources o with
  | VFloat x => if PrimFloat.eqb x 0%float then dropped
                else w' = w ∧ r = Raise TypeError
  | VInt n => if (n =? 0)%Z then dropped else w' = w ∧ r = Raise TypeError
  | VStr s => if String.eqb s "" then dropped else w' = w ∧ r = Raise ValueError
  | _ => True
  end.
Proof.
  intros o.
  destruct (ActorOptions.resources o) as [|x|n|s|r|pg] eqn:Hres;
    try by destruct (ActorOptions_to_kwargs self w).
  all: unfold ActorOptions_to_kwargs;
    unfold mbind, M_bind at 1; cbn [read_instance]; fold o; rewrite Hres;
    cbn [truthy dict_copy]; run.
  - destruct (PrimFloat.eqb x 0); run; [|done].
    split; [done|]. eexists. split; [done|]. case_is_None; by vm_compute.
  - destruct (n =? 0)%Z; run; [|done].
    split; [done|]. eexists. split; [done|]. case_is_None; by vm_compute.
  - destruct (String.eqb s ""); run; [|done].
    split; [done|]. eexists. split; [done|]. case_is_None; by vm_compute.
Qed.

(** ** [BaseActor.as_remote], step by step *)

Lemma as_remote_run B cls overrides w :
  ray B = true →
  BaseActor.as_remote B cls overrides w
  = match BaseActor.options B cls overrides w with
    | (Ok l, w1) =>
        match ActorOptions_to_kwargs l w1 with
        | (Ok kw, w2) =>
            (remote B (trace w2) kw,
             mkWorld (instances w2) (dicts w2) (trace w2 ++ [Call_remote kw]))
        | (Raise e, w2) => (Raise e, w2)
        end
    | (Raise e, w1) => (Raise e, w1)
    end.
Proof.
  intros HB. unfold BaseActor.as_remote, _require_ray. rewrite HB.
  unfold mbind, M_bind, mret, M_ret. cbn [call].
  destruct (BaseActor.options B cls overrides w) as [[l|e] w1]; [|done].
  destruct (ActorOptions_to_kwargs l w1) as [[kw|e] w2]; [|done].
  unfold call. by destruct (remote B (trace w2) kw).
Qed.

Lemma create_placement_group_remote_calls B spec w :
  remote_calls (trace (snd (create_placement_group B spec w)))
  = remote_calls (trace w).
Proof.
  unfold create_placement_group, _require_ray. run.
  destruct (ray B); run;
    [destruct (placement_group B _ _) as [pg|e]; run;
     [destruct (wait B _ _ _) as [[|]|e]; run;
      [|destruct (remove_placement_group B _ _) as [[]|e]; run|]|]|];
    rewrite <- ?(assoc_L (++)), !remote_calls_app; simpl;
    by rewrite ?app_nil_r.
Qed.

Lemma options_remote_calls B cls overrides w :
  remote_calls (trace (snd (BaseActor.options B cls overrides w)))
  = remote_calls (trace w).
Proof.
  options_steps B cls overrides w.
  destruct (known_keys overrides); [|cbn [snd]; by rewrite Htr].
  destruct (placement_group_spec cls) as [spec|]; [|done].
  destruct (is_None (merged_placement_group w cls overrides)); [|done].
  match goal with |- context [create_placement_group B spec ?w2] =>
    pose proof (create_placement_group_remote_calls B spec w2) as Hcalls;
    by destruct (create_placement_group B spec w2) as [[pg|e] w3]
  end.
Qed.

(** [as_remote] calls [ray.remote] at most once, as the last thing it
    does, and what that call answers is the outcome of [as_remote]; when
    [ray.remote] is not reached, [as_remote] has raised. *)
Theorem as_remote_calls_remote_last B cls overrides w :
  let '(r, w') := BaseActor.as_remote B cls overrides w in
  (remote_calls (trace w') = remote_calls (trace w) ∧ ∃ e, r = Raise e) ∨
  (∃ h kw, trace w' = h ++ [Call_remote kw] ∧
           remote_calls h = remote_calls (trace w) ∧
           r = remote B h kw).
Proof.
  destruct (ray B) eqn:HB.
  2:{ unfold BaseActor.as_remote, _require_ray. rewrite HB. left. eauto. }
  rewrite as_remote_run by done.
  pose proof (options_remote_calls B cls overrides w) as Hopt.
  destruct (BaseActor.options B cls overrides w) as [[l|e] w1]; [|left; eauto].
  pose proof (to_kwargs_shape l w1) as Hkw. cbv zeta in Hkw.
  destruct (ActorOptions_to_kwargs l w1) as [[kw|e] w2].
  - destruct Hkw as (_ & Htr & _). right. exists (trace w2), kw.
    cbn [trace snd] in *. by rewrite Htr.
  - destruct Hkw as [-> _]. left. eauto.
Qed.

(** A group reserved during [as_remote] stays reserved: whether
    [as_remote] then returns the remote class or fails in [to_kwargs] or in
    [ray.remote], it has entered [create_placement_group] once and asked
    for no removal. *)
Theorem as_remote_keeps_reservation B cls overrides w pg :
  known_keys overrides = true →
  reservation B cls overrides w = Some (Ok pg) →
  let '(_, w') := BaseActor.as_remote B cls overrides w in
  release_calls (trace w') = release_calls (trace w) ∧
  ∃ spec, placement_group_spec cls = Some spec ∧
          reserve_calls (trace w') = reserve_calls (trace w) ++ [spec].
Proof.
  intros Hknown Hres. unfold reservation in Hres.
  destruct (placement_group_spec cls) as [spec|] eqn:Hspec; [|done].
  destruct (is_None (merged_placement_group w cls overrides)) eqn:Hnone; [|done].
  injection Hres as Hres.
  assert (HB : ray B = true).
  { destruct (create_placement_group B spec w) as [r0 w0] eqn:Hrun.
    cbn [fst] in Hres. subst r0.
    by destruct (create_placement_group_ok_inv _ _ _ _ _ Hrun) as (? & _). }
  rewrite as_remote_run by done.
  options_steps B cls overrides w. rewrite Hknown, Hspec, Hnone.
  match goal with |- context [create_placement_group B spec ?w2] =>
    destruct (create_placement_group_trace_only B spec w2 w eq_refl) as [Hfst _];
    destruct (create_placement_group B spec w2) as [[pg'|e] w3] eqn:Hrun
  end; cbn [fst] in Hfst; rewrite Hres in Hfst; [|done].
  apply create_placement_group_ok_inv in Hrun as (_ & _ & _ & ->).
  cbn [instances dicts trace].
  match goal with |- context [ActorOptions_to_kwargs ?l ?w1] =>
    pose proof (to_kwargs_shape l w1) as Hkw; cbv zeta in Hkw;
    destruct (ActorOptions_to_kwargs l w1) as [[kw|e] w2]
  end.
  - destruct Hkw as (_ & Htr2 & _). cbn [trace] in *. rewrite Htr2.
    split; [|exists spec; split; [done|]];
      rewrite <- ?(assoc_L (++)), ?release_calls_app, ?reserve_calls_app; simpl;
      by rewrite ?app_nil_r.
  - destruct Hkw as [-> _]. cbn [trace].
    split; [|exists spec; split; [done|]];
      rewrite <- ?(assoc_L (++)), ?release_calls_app, ?reserve_calls_app; simpl;
      by rewrite ?app_nil_r.
Qed.

Lemma as_remote_keeps_reservation_witness :
  let '(_, w') := BaseActor.as_remote (ray_remote_fails 7)
                    ExampleActorWithPlacement ∅ loaded in
  release_calls (trace w') = release_calls (trace loaded) ∧
  ∃ spec, placement_group_spec ExampleActorWithPlacement = Some spec ∧
          reserve_calls (trace w') = reserve_calls (trace loaded) ++ [spec].
Proof.
  apply (as_remote_keeps_reservation (ray_remote_fails 7)
           ExampleActorWithPlacement ∅ loaded 7); reflexivity.
Defined.

(** The keywords [as_remote] hands to [ray.remote] when it returns: both
    quantities are there, every override other than [resources] that is
    not [None] is there with the caller's value, and a group reserved
    during the call is there as [placement_group]. *)
Theorem as_remote_passes_overrides B cls overrides w rc w' :
  BaseActor.as_remote B cls overrides w = (Ok rc, w') →
  ∃ h kw, trace w' = h ++ [Call_remote kw] ∧
    is_Some (kw !! "num_cpus") ∧ is_Some (kw !! "num_gpus") ∧
    (∀ k v, overrides !! k = Some v → k ≠ "resources" → is_None v = false →
            kw !! k = Some v) ∧
    (∀ pg, reservation B cls overrides w = Some (Ok pg) →
           kw !! "placement_group" = Some (VHandle pg)).
Proof.
  destruct (ray B) eqn:HB.
  2:{ unfold BaseActor.as_remote, _require_ray. by rewrite HB. }
  rewrite as_remote_run by done.
  destruct (BaseActor.options B cls overrides w) as [[l|e] w1] eqn:Hopt; [|done].
  pose proof (to_kwargs_shape l w1) as Hkw. cbv zeta in Hkw.
  destruct (ActorOptions_to_kwargs l w1) as [[kw|e] w2]; [|done].
  intros [= Hrc <-]. cbn [trace]. exists (trace w2), kw. split; [done|].
  destruct Hkw as (_ & _ & _ & Hc & Hg & Hm & Hn & Hs & Hl & Hp).
  split; [by eexists|]. split; [by eexists|].
  destruct (options_returns _ _ _ _ _ _ Hopt)
    as (d & wa & o & _ & _ & _ & _ & Hd & Hknown & -> & Hins & _ & Ho).
  rewrite Hins, list_lookup_total_middle in Hc, Hg, Hm, Hn, Hs, Hl, Hp by done.
  cbv zeta in Ho.
  assert (Hmerged : is_None (ActorOptions.placement_group
                               (ActorOptions.of_kwargs (overrides ∪ d)))
                    = is_None (merged_placement_group w cls overrides)).
  { generalize (Hd "placement_group"). cbn.
    intros (v' & ? & ? & _). by eapply placement_group_merged. }
  assert (Hget : ∀ k v, overrides !! k = Some v →
            ActorOptions.getattr (ActorOptions.of_kwargs (overrides ∪ d)) k = Some v).
  { intros k v Hk. apply getattr_of_kwargs; [by eapply known_keys_true|].
    by apply lookup_union_Some_l. }
  revert Hmerged Hget Ho. generalize (ActorOptions.of_kwargs (overrides ∪ d)).
  intros o0 Hmerged Hget Ho. split.
  - intros k v Hk Hres Hv. pose proof (known_keys_true _ _ _ Hknown Hk) as Hfield.
    specialize (Hget k v Hk).
    assert (Ho' : ActorOptions.getattr o k = Some v).
    { destruct Ho as [(-> & _)|(spec & pg & w3 & _ & Hnone & -> & _)]; [done|].
      destruct (decide (k = "placement_group")) as [->|Hne].
      - cbn in Hget. injection Hget as Hget. rewrite Hget in Hnone. congruence.
      - by rewrite getattr_set_placement_group. }
    clear Hget Ho. revert Hfield Ho' Hres.
    unfold ActorOptions.field_names. rewrite !elem_of_cons, elem_of_nil.
    intros Hfield; repeat (destruct Hfield as [->|Hfield];
      [cbn; intros [= Heq] Hne; try (by destruct Hne);
       rewrite Heq in *; rewrite ?Hv in *; done|]).
    done.
  - intros pg Hres. unfold reservation in Hres.
    destruct (placement_group_spec cls) as [spec|] eqn:Hspec; [|done].
    destruct (is_None (merged_placement_group w cls overrides)) eqn:Hnone; [|done].
    injection Hres as Hres.
    destruct Ho as [(-> & _ & [?|?])|(spec' & pg' & w3 & [= <-] & _ & -> & Hrun & _)];
      [done|congruence|].
    destruct (create_placement_group_trace_only B spec
                (mkWorld (instances w ++ [o0]) (dicts wa) (trace w)) w eq_refl)
      as [Hfst _].
    rewrite Hrun, Hres in Hfst. injection Hfst as ->. by rewrite Hp.
Qed.

Lemma as_remote_passes_overrides_witness :
  let w' := snd (BaseActor.as_remote (ray_ready 7) ExampleActorWithPlacement
                   {["name" := VStr "a"]} loaded) in
  ∃ h kw, trace w' = h ++ [Call_remote kw] ∧
    is_Some (kw !! "num_cpus") ∧ is_Some (kw !! "num_gpus") ∧
    (∀ k v, ({["name" := VStr "a"]} : gmap string pyval) !! k = Some v →
            k ≠ "resources" → is_None v = false → kw !! k = Some v) ∧
    (∀ pg, reservation (ray_ready 7) ExampleActorWithPlacement
             {["name" := VStr "a"]} loaded = Some (Ok pg) →
           kw !! "placement_group" = Some (VHandle pg)).
Proof.
  intros w'.
  apply (as_remote_passes_overrides (ray_ready 7) ExampleActorWithPlacement
           {["name" := VStr "a"]} loaded 0 w').
  vm_compute. reflexivity.
Defined.
